(** * TourBox protocol and state engine

    A shallow embedding of the decoder ([tourbox_client.cc]), the button
    registry ([tourbox_server.cc]) and the host-facing surface
    ([tourbox_addon.cc]), followed by the properties of the specification
    that are stated over them.

    Conventions.
    - C++ [int] values are [Z].  Every [int] of the decoder stays far from
      the limits of the type (byte values, counts of at most 1023).
    - [std::map<int, V>] iterated in key order is a key-sorted association
      list ([StdMap]); maps that are only looked up, written and erased are
      stdpp [gmap]s.
    - [DEBUG] is the constant [false] in every translation unit, so the
      logging branches are left out.
    - Calls that leave the client object ([EmitRawData],
      [server->SetButtonHeld], [EmitToNode]) are recorded, in program order,
      in a trace carried by the state. *)

From Stdlib Require Import ZArith Ascii String List Lia.
From Stdlib.Strings Require Import Byte.
From stdpp Require Import gmap strings list pretty.

Local Open Scope string_scope.
Local Open Scope list_scope.
Local Open Scope Z_scope.

(** ** [std::map<int, V>] as a key-sorted association list *)

Module StdMap.
Section Ops.
Context {V : Type}.

(** [m.find(k)]: [None] stands for [m.end()]. *)
Fixpoint find (k : Z) (m : list (Z * V)) : option V :=
  match m with
  | [] => None
  | (k', v) :: m' => if k' =? k then Some v else find k m'
  end.

(** [m.insert({k, v})]: the position is found by key order, an element
    whose key is already present is not replaced. *)
Fixpoint insert (k : Z) (v : V) (m : list (Z * V)) : list (Z * V) :=
  match m with
  | [] => [(k, v)]
  | (k', v') :: m' =>
      if k <? k' then (k, v) :: m
      else if k =? k' then m
      else (k', v') :: insert k v m'
  end.

(** Construction from an initializer list: the elements are inserted one
    after the other. *)
Definition of_list (l : list (Z * V)) : list (Z * V) :=
  fold_left (fun m kv => insert (fst kv) (snd kv) m) l [].

Definition keys (m : list (Z * V)) : list Z := List.map fst m.
End Ops.
End StdMap.

(** ** tourbox_server.cc: the button registry *)

Module Server.

(** The part of [TourBoxServerWrapper] that the protocol engine reads and
    writes.  [serverSocket = None] is [INVALID_SOCKET]. *)
Record TourBoxServerWrapper := mkServer {
  serverSocket : option Z;
  running : bool;
  buttonStates : gmap Z bool
}.

(** [buttonStates[code] = held;] (under the mutex) *)
Definition SetButtonHeld (code : Z) (held : bool)
    (s : TourBoxServerWrapper) : TourBoxServerWrapper :=
  {| serverSocket := serverSocket s;
     running := running s;
     buttonStates := <[code := held]> (buttonStates s) |}.

(** [it != buttonStates.end() && it->second] *)
Definition IsButtonHeld (code : Z) (s : TourBoxServerWrapper) : bool :=
  match buttonStates s !! code with
  | Some held => held
  | None => false
  end.

(** The constructor: invalid socket, not running, empty registry. *)
Definition new_server : TourBoxServerWrapper :=
  {| serverSocket := None; running := false; buttonStates := ∅ |}.

(** What the operating system answers to [socket], [bind] and [listen]. *)
Inductive SocketOutcome :=
| SocketFailed
| BindFailed
| ListenFailed
| Listening (fd : Z).

(** [StartServer]: on success the socket is kept and [running] is set (the
    accept thread is started); every failure leaves the socket invalid and
    returns [false]. *)
Definition StartServer (os : SocketOutcome)
    (s : TourBoxServerWrapper) : bool * TourBoxServerWrapper :=
  match os with
  | Listening fd =>
      (true, {| serverSocket := Some fd; running := true;
                buttonStates := buttonStates s |})
  | _ =>
      (false, {| serverSocket := None; running := running s;
                 buttonStates := buttonStates s |})
  end.

(** [Stop]: clear [running], close and invalidate the socket, join the
    accept thread (the join is taken to return). *)
Definition Stop (s : TourBoxServerWrapper) : TourBoxServerWrapper :=
  {| serverSocket := None; running := false;
     buttonStates := buttonStates s |}.

End Server.

(** ** tourbox_client.cc: the connection decoder *)

Module Client.
Import Server.

(** [struct ControlAction].  The [action] member is always a lambda of the
    shape [[](int count) { EmitToNode(lit, count); }]; it is represented by
    its string literal, and [None] is [nullptr]. *)
Record ControlAction := mkControlAction {
  name : string;
  isPress : bool;
  releaseCode : Z;
  action : option string
}.

(** The initializer list of [initializeControlMap], in source order. *)
Definition controlMap_init : list (Z * ControlAction) :=
  [ (132, mkControlAction "Knob CCW" false (-1) (Some "Knob CCW"));
    (196, mkControlAction "Knob CW" false (-1) (Some "Knob CW"));
    (137, mkControlAction "Scroll Down" false (-1) (Some "Scroll Down"));
    (201, mkControlAction "Scroll Up" false (-1) (Some "Scroll Up"));
    (143, mkControlAction "Dial CCW" false (-1) (Some "Dial CCW"));
    (207, mkControlAction "Dial CW" false (-1) (Some "Dial CW"));
    (55, mkControlAction "Knob Press" true 183 (Some "Knob Press"));
    (183, mkControlAction "Knob Release" false (-1) (Some "Knob Release"));
    (56, mkControlAction "Dial Press" true 184 (Some "Dial Press"));
    (184, mkControlAction "Dial Release" false (-1) (Some "Dial Release"));
    (16, mkControlAction "Up Press" true 144 (Some "Up Press"));
    (144, mkControlAction "Up Release" false (-1) (Some "Up Release"));
    (17, mkControlAction "Down Press" true 145 (Some "Down Press"));
    (145, mkControlAction "Down Release" false (-1) (Some "Down Release"));
    (18, mkControlAction "Left Press" true 146 (Some "Left Press"));
    (146, mkControlAction "Left Release" false (-1) (Some "Left Release"));
    (19, mkControlAction "Right Press" true 147 (Some "Right Press"));
    (147, mkControlAction "Right Release" false (-1) (Some "Right Release"));
    (0, mkControlAction "Tall Press" true 128 (Some "Tall Press"));
    (128, mkControlAction "Tall Release" false (-1) (Some "Tall Release"));
    (1, mkControlAction "Side Press" true 129 (Some "Side Press"));
    (129, mkControlAction "Side Release" false (-1) (Some "Side Release"));
    (2, mkControlAction "Top Press" true 130 (Some "Top Press"));
    (130, mkControlAction "Top Release" false (-1) (Some "Top Release"));
    (3, mkControlAction "Short Press" true 131 (Some "Short Press"));
    (131, mkControlAction "Short Release" false (-1) (Some "Short Release"));
    (42, mkControlAction "Tour Press" true 170 (Some "Tour Press"));
    (170, mkControlAction "Tour Release" false (-1) (Some "Tour Release"));
    (34, mkControlAction "C1 Press" true 162 (Some "C1 Press"));
    (162, mkControlAction "C1 Release" false (-1) (Some "C1 Release"));
    (35, mkControlAction "C2 Press" true 163 (Some "C2 Press"));
    (163, mkControlAction "C2 Release" false (-1) (Some "C2 Release"));
    (10, mkControlAction "Scroll Press" true 138 (Some "Scroll Press"));
    (138, mkControlAction "Scroll Release" false (-1)
            (Some "Scroll Release")) ].

(** [controlMap = { ... };] *)
Definition controlMap : list (Z * ControlAction) :=
  StdMap.of_list controlMap_init.

(** Calls that leave the client object. *)
Inductive Call :=
| CallEmitRawData (data : list byte)
| CallSetButtonHeld (code : Z) (held : bool)
| CallEmitToNode (eventName : string) (count : Z).

(** The state a decoder works on: the server object behind its [server]
    pointer ([None] is a null pointer) and the calls made so far, oldest
    first. *)
Record State := mkState {
  server : option TourBoxServerWrapper;
  trace : list Call
}.

Definition call_SetButtonHeld (code : Z) (held : bool) (st : State) : State :=
  {| server := option_map (SetButtonHeld code held) (server st);
     trace := trace st ++ [CallSetButtonHeld code held] |}.

Definition call_EmitToNode (eventName : string) (count : Z)
    (st : State) : State :=
  {| server := server st;
     trace := trace st ++ [CallEmitToNode eventName count] |}.

Definition call_EmitRawData (data : list byte) (st : State) : State :=
  {| server := server st;
     trace := trace st ++ [CallEmitRawData data] |}.

(** The loop of the release branch: the first press entry, in key order,
    whose [releaseCode] is [releaseValue]; [-1] when there is none. *)
Fixpoint pressCodeToClear (releaseValue : Z)
    (m : list (Z * ControlAction)) : Z :=
  match m with
  | [] => -1
  | (code, ca) :: m' =>
      if isPress ca && (releaseCode ca =? releaseValue) then code
      else pressCodeToClear releaseValue m'
  end.

(** [handleTourBoxInput(value, count)] *)
Definition handleTourBoxInput (value count : Z) (st : State) : State :=
  match StdMap.find value controlMap with
  | None => st
  | Some act =>
      let st1 :=
        if isPress act then
          match server st with
          | Some _ => call_SetButtonHeld value true st
          | None => st
          end
        else
          match server st with
          | Some srv =>
              let p := pressCodeToClear value controlMap in
              if negb (p =? -1) && IsButtonHeld p srv
              then call_SetButtonHeld p false st
              else st
          | None => st
          end in
      match action act with
      | Some lit => call_EmitToNode lit count st1
      | None => st1
      end
  end.

(** *** The hexadecimal detour of [processData] / [parseTourBoxData] *)

(** [(int)(unsigned char)buffer[i]] *)
Definition unsigned_char (b : byte) : Z := Z.of_N (Byte.to_N b).

Definition hex_digit (d : Z) : ascii :=
  match d with
  | 0 => "0" | 1 => "1" | 2 => "2" | 3 => "3" | 4 => "4" | 5 => "5"
  | 6 => "6" | 7 => "7" | 8 => "8" | 9 => "9" | 10 => "a" | 11 => "b"
  | 12 => "c" | 13 => "d" | 14 => "e" | _ => "f"
  end%char.

(** The digits of a non-negative [int] under [std::hex]: lower case, no
    prefix, at most eight of them. *)
Fixpoint hex_digits (fuel : nat) (n : Z) (acc : string) : string :=
  match fuel with
  | O => acc
  | S fuel' =>
      let acc' := String (hex_digit (n mod 16)) acc in
      if n / 16 =? 0 then acc' else hex_digits fuel' (n / 16) acc'
  end.

(** [std::setw(w) << std::setfill(c)]: padding on the left. *)
Fixpoint pad_left (c : ascii) (n : nat) (s : string) : string :=
  match n with
  | O => s
  | S n' => String c (pad_left c n' s)
  end.

(** [hexStream << std::hex << std::setw(2) << std::setfill('0') << v] *)
Definition hex_field (v : Z) : string :=
  let digits := hex_digits 8 v "" in
  pad_left "0" (2 - String.length digits) digits.

(** The string [hexData] built by the loop of [processData]. *)
Fixpoint hexData (buffer : list byte) : string :=
  match buffer with
  | [] => ""
  | b :: buffer' =>
      String.append (hex_field (unsigned_char b)) (hexData buffer')
  end.

(** The value of a digit character in base 16, by its character code:
    ['0'..'9'], ['a'..'f'], ['A'..'F']. *)
Definition hex_value (c : ascii) : option Z :=
  let code := Z.of_nat (nat_of_ascii c) in
  if (48 <=? code) && (code <=? 57) then Some (code - 48)
  else if (97 <=? code) && (code <=? 102) then Some (code - 87)
  else if (65 <=? code) && (code <=? 70) then Some (code - 55)
  else None.

(** [isspace] in the C locale: the space and the codes 9 to 13. *)
Definition isspace (c : ascii) : bool :=
  let code := Z.of_nat (nat_of_ascii c) in
  (code =? 32) || ((9 <=? code) && (code <=? 13)).

Fixpoint skip_spaces (s : string) : string :=
  match s with
  | String c s' => if isspace c then skip_spaces s' else s
  | EmptyString => s
  end.

(** The longest prefix of hexadecimal digits: its value and whether it is
    non-empty. *)
Fixpoint read_hex (s : string) (acc : Z) (any : bool) : Z * bool :=
  match s with
  | String c s' =>
      match hex_value c with
      | Some d => read_hex s' (16 * acc + d) true
      | None => (acc, any)
      end
  | EmptyString => (acc, any)
  end.

Definition starts_with_hex (s : string) : bool :=
  match s with
  | String c _ => match hex_value c with Some _ => true | None => false end
  | EmptyString => false
  end.

(** [std::stoi(s, nullptr, 16)], after the C++ standard: leading white
    space, an optional sign, an optional [0x] prefix, then the longest run
    of digits.  [None] stands for an exception ([std::invalid_argument]
    when there is no digit, [std::out_of_range] outside [int]). *)
Definition stoi16 (s : string) : option Z :=
  let s1 := skip_spaces s in
  let '(neg, s2) :=
    match s1 with
    | String "-"%char r => (true, r)
    | String "+"%char r => (false, r)
    | _ => (false, s1)
    end in
  let s3 :=
    match s2 with
    | String "0"%char (String x r) =>
        if (Ascii.eqb x "x" || Ascii.eqb x "X") && starts_with_hex r
        then r else s2
    | _ => s2
    end in
  let '(v, any) := read_hex s3 0 false in
  let v' := if neg then - v else v in
  if any && (- 2147483648 <=? v') && (v' <=? 2147483647)
  then Some v' else None.

(** The conversion loop of [parseTourBoxData]: [i] advances by two, the
    two-character substring is converted, a trailing single character is
    skipped ([i + 1 < hexData.length()] fails).  [None] when a conversion
    throws. *)
Fixpoint hex_to_bytes (hexData : string) : option (list Z) :=
  match hexData with
  | String c1 (String c2 rest) =>
      match stoi16 (String c1 (String c2 "")) with
      | Some value =>
          match hex_to_bytes rest with
          | Some bytes => Some (value :: bytes)
          | None => None
          end
      | None => None
      end
  | _ => Some []
  end.

(** The grouping loop, entered with [currentValue = bytes[0]],
    [count = 1] and the bytes from index 1 on. *)
Fixpoint group_loop (bytes : list Z) (currentValue count : Z)
    (st : State) : State :=
  match bytes with
  | [] => handleTourBoxInput currentValue count st
  | b :: bytes' =>
      if b =? currentValue
      then group_loop bytes' currentValue (count + 1) st
      else group_loop bytes' b 1 (handleTourBoxInput currentValue count st)
  end.

(** The grouping stage on the converted bytes. *)
Definition group_bytes (bytes : list Z) (st : State) : State :=
  match bytes with
  | [] => st
  | b0 :: bytes' => group_loop bytes' b0 1 st
  end.

(** [parseTourBoxData(hexData)]: an exception of the conversion is caught
    before any group was handled. *)
Definition parseTourBoxData (hexData : string) (st : State) : State :=
  match hex_to_bytes hexData with
  | Some bytes => group_bytes bytes st
  | None => st
  end.

(** [processData(buffer, bytesReceived)], with [buffer] cut to its first
    [bytesReceived] bytes. *)
Definition processData (buffer : list byte) (st : State) : State :=
  parseTourBoxData (hexData buffer) (call_EmitRawData buffer st).

(** What one call of [recv] returns: the bytes read ([bytesReceived] is
    their number, zero when the peer closed) or an error. *)
Inductive RecvResult :=
| RecvBytes (data : list byte)
| RecvError.

(** [Run]: the receive loop, against the successive answers of [recv].
    Nobody calls [Stop] on a client, so [running] stays [true]; the loop
    ends at the first answer with [bytesReceived <= 0]. *)
Fixpoint Run (recvs : list RecvResult) (st : State) : State :=
  match recvs with
  | [] => st
  | RecvError :: _ => st
  | RecvBytes [] :: _ => st
  | RecvBytes data :: recvs' => Run recvs' (processData data st)
  end.

(** *** Reading a trace *)

(** The events handed to [EmitToNode], oldest first. *)
Fixpoint emitted (t : list Call) : list (string * Z) :=
  match t with
  | [] => []
  | CallEmitToNode n c :: t' => (n, c) :: emitted t'
  | _ :: t' => emitted t'
  end.

(** The registry writes, oldest first. *)
Fixpoint writes (t : list Call) : list (Z * bool) :=
  match t with
  | [] => []
  | CallSetButtonHeld code held :: t' => (code, held) :: writes t'
  | _ :: t' => writes t'
  end.

(** *** The grouping of the specification *)

(** Maximal runs of equal consecutive values, as [(value, count)] pairs. *)
Fixpoint runs (l : list Z) : list (Z * Z) :=
  match l with
  | [] => []
  | x :: l' =>
      match runs l' with
      | (y, k) :: g => if x =? y then (x, k + 1) :: g
                       else (x, 1) :: (y, k) :: g
      | [] => [(x, 1)]
      end
  end.

(** The groups the loop hands over, read off the loop itself: the current
    value and count are carried along and closed by the first different
    byte or by the end of the chunk. *)
Fixpoint runs_from (bytes : list Z) (currentValue count : Z) : list (Z * Z) :=
  match bytes with
  | [] => [(currentValue, count)]
  | b :: bytes' =>
      if b =? currentValue then runs_from bytes' currentValue (count + 1)
      else (currentValue, count) :: runs_from bytes' b 1
  end.

(** The byte sequence a list of groups stands for. *)
Fixpoint expand (g : list (Z * Z)) : list Z :=
  match g with
  | [] => []
  | (x, k) :: g' => repeat x (Z.to_nat k) ++ expand g'
  end.

(** Neighbouring groups carry different values. *)
Fixpoint adjacent_differ (g : list (Z * Z)) : Prop :=
  match g with
  | (x, _) :: (((y, _) :: _) as g') => x <> y /\ adjacent_differ g'
  | _ => True
  end.

(** Handling a list of groups, one call per group, first group first. *)
Definition handle_groups (g : list (Z * Z)) (st : State) : State :=
  fold_left (fun s vc => handleTourBoxInput (fst vc) (snd vc) s) g st.

(** A chunk of bytes from their unsigned values (for the scenarios). *)
Definition chunk (l : list Z) : list byte :=
  List.map (fun v => match Byte.of_N (Z.to_N v) with
                     | Some b => b
                     | None => x00
                     end) l.

(** *** The rest of the client *)

(** [isButtonHeld(int buttonCode)] *)
Definition isButtonHeld (buttonCode : Z) (st : State) : bool :=
  match server st with
  | None => false
  | Some srv => IsButtonHeld buttonCode srv
  end.

(** The loop of [isButtonHeld(const std::string&)]: the code of the first
    row, in key order, whose name is [buttonName]. *)
Fixpoint code_of_name (buttonName : string)
    (m : list (Z * ControlAction)) : option Z :=
  match m with
  | [] => None
  | (code, ca) :: m' =>
      if String.eqb (name ca) buttonName then Some code
      else code_of_name buttonName m'
  end.

(** [isButtonHeld(const std::string& buttonName)] *)
Definition isButtonHeld_name (buttonName : string) (st : State) : bool :=
  match code_of_name buttonName controlMap with
  | Some code => isButtonHeld code st
  | None => false
  end.

(** *** Vocabulary for the properties of the decoder *)

(** The raw buffers handed to [EmitRawData], oldest first. *)
Fixpoint raw_calls (t : list Call) : list (list byte) :=
  match t with
  | [] => []
  | CallEmitRawData data :: t' => data :: raw_calls t'
  | _ :: t' => raw_calls t'
  end.

(** The event a group gives rise to: the literal of the row's lambda with
    the group's count; none for a value without a row. *)
Definition event_of_group (g : Z * Z) : option (string * Z) :=
  match StdMap.find (fst g) controlMap with
  | Some act =>
      match action act with
      | Some lit => Some (lit, snd g)
      | None => None
      end
  | None => None
  end.

Fixpoint events_of (gs : list (Z * Z)) : list (string * Z) :=
  match gs with
  | [] => []
  | g :: gs' =>
      match event_of_group g with
      | Some e => e :: events_of gs'
      | None => events_of gs'
      end
  end.

(** The bytes of a chunk that have a row in the table. *)
Fixpoint count_known (l : list Z) : Z :=
  match l with
  | [] => 0
  | v :: l' =>
      match StdMap.find v controlMap with
      | Some _ => 1 + count_known l'
      | None => count_known l'
      end
  end.

Fixpoint sum_counts (es : list (string * Z)) : Z :=
  match es with
  | [] => 0
  | e :: es' => snd e + sum_counts es'
  end.

(** The code of a press row. *)
Definition is_press_code (code : Z) : bool :=
  match StdMap.find code controlMap with
  | Some ca => isPress ca
  | None => false
  end.

(** Every key of the registry is the code of a press row. *)
Definition press_keys_only (srv : TourBoxServerWrapper) : Prop :=
  forall code, is_Some (buttonStates srv !! code) -> is_press_code code = true.

(** The held flag of a press code [p] with release code [r] after a list of
    groups, from the flag before: a group of [p] sets it, a group of [r]
    clears it, any other group leaves it. *)
Definition held_after (p r : Z) (groups : list (Z * Z)) (held : bool) : bool :=
  fold_left (fun h g => if fst g =? p then true
                        else if fst g =? r then false else h) groups held.

(** The same flag computed byte by byte, without any grouping. *)
Definition held_after_bytes (p r : Z) (bytes : list Z) (held : bool) : bool :=
  fold_left (fun h v => if v =? p then true
                        else if v =? r then false else h) bytes held.

(** A string given two characters at a time, in front of [rest]. *)
Fixpoint pairs_to_string (ps : list (ascii * ascii)) (rest : string) : string :=
  match ps with
  | [] => rest
  | (c1, c2) :: ps' => String c1 (String c2 (pairs_to_string ps' rest))
  end.

End Client.

(** ** tourbox_addon.cc: the host-facing surface *)

Module Addon.
Import Server.

(** The arguments and results of the exported functions.  A number is
    given by what [Int32Value()] returns for it, a function by the
    identity of the function object. *)
Inductive JsValue :=
| JsUndefined
| JsNull
| JsBoolean (b : bool)
| JsNumber (int32 : Z)
| JsString (utf8 : string)
| JsFunction (fn : nat).

Definition IsNumber (v : JsValue) : bool :=
  match v with JsNumber _ => true | _ => false end.
Definition IsString (v : JsValue) : bool :=
  match v with JsString _ => true | _ => false end.
Definition IsFunction (v : JsValue) : bool :=
  match v with JsFunction _ => true | _ => false end.

(** How an exported function ends: with a value, or with a pending
    JavaScript exception (and [env.Null()]). *)
Inductive CallResult :=
| Returned (v : JsValue)
| ThrewTypeError (message : string)
| ThrewError (message : string).

(** A handle made by [Napi::ThreadSafeFunction::New(env, fn, name, 0, 1)]. *)
Record ThreadSafeFunction := mkTsfn {
  jsCallback : nat;
  resourceName : string
}.

(** What is queued on a handle by [NonBlockingCall]. *)
Inductive Payload :=
| ControlEvent (eventName : string) (count : Z)
| RawBuffer (data : list byte)
| ConnectionEvent (eventType ip : string) (port : Z).

(** The process globals, and two logs: the handles on which [Release()]
    was called and the payloads queued, both oldest first. *)
Record Globals := mkGlobals {
  g_servers : gmap Z TourBoxServerWrapper;
  g_nextServerId : Z;
  g_eventCallback : option ThreadSafeFunction;
  g_rawCallback : option ThreadSafeFunction;
  released : list ThreadSafeFunction;
  posted : list (ThreadSafeFunction * Payload)
}.

(** The state when the module is loaded. *)
Definition initial : Globals :=
  {| g_servers := ∅; g_nextServerId := 1;
     g_eventCallback := None; g_rawCallback := None;
     released := []; posted := [] |}.

(** [int] arithmetic: the result of [n + 1] brought back into 32 bits. *)
Definition int_wrap (z : Z) : Z := (z + 2147483648) mod 4294967296 - 2147483648.

(** [g_nameToCode] *)
Definition g_nameToCode : gmap string Z :=
  list_to_map
    [ ("Knob CCW", 132); ("Knob CW", 196); ("Scroll Down", 137);
      ("Scroll Up", 201); ("Dial CCW", 143); ("Dial CW", 207);
      ("Knob Press", 55); ("Knob Release", 183); ("Dial Press", 56);
      ("Dial Release", 184); ("Up Press", 16); ("Up Release", 144);
      ("Down Press", 17); ("Down Release", 145); ("Left Press", 18);
      ("Left Release", 146); ("Right Press", 19); ("Right Release", 147);
      ("Tall Press", 0); ("Tall Release", 128); ("Side Press", 1);
      ("Side Release", 129); ("Top Press", 2); ("Top Release", 130);
      ("Short Press", 3); ("Short Release", 131); ("Tour Press", 42);
      ("Tour Release", 170); ("C1 Press", 34); ("C1 Release", 162);
      ("C2 Press", 35); ("C2 Release", 163); ("Scroll Press", 10);
      ("Scroll Release", 138) ].

Definition args_message : string :=
  "Expected arguments: (name) or (serverId, name)".

(** The name-to-code step of [ButtonState]: the exact name, then the name
    followed by [" Press"]. *)
Definition name_to_code (name : string) : option Z :=
  match g_nameToCode !! name with
  | Some code => Some code
  | None => g_nameToCode !! (String.append name " Press")
  end.

(** The answer of [ButtonState] once the arguments are read: [serverId] is
    [None] when all servers are checked. *)
Definition button_state_of (serverId : option Z) (name : string)
    (g : Globals) : bool :=
  match name_to_code name with
  | None => false
  | Some code =>
      match serverId with
      | None =>
          existsb (fun kv => IsButtonHeld code (snd kv))
                  (map_to_list (g_servers g))
      | Some id =>
          match g_servers g !! id with
          | Some srv => IsButtonHeld code srv
          | None => false
          end
      end
  end.

(** [ButtonState(info)] *)
Definition ButtonState (info : list JsValue) (g : Globals) : CallResult :=
  match info with
  | [JsString name] =>
      Returned (JsBoolean (button_state_of None name g))
  | [JsNumber serverId; JsString name] =>
      Returned (JsBoolean (button_state_of (Some serverId) name g))
  | _ => ThrewTypeError args_message
  end.

(** [if (handle) handle.NonBlockingCall(...)], on a handle in use: the
    payload is queued.  What the call does on a handle that [Release()] was
    called on is in [post_event] and [post_raw] below. *)
Definition post (handle : option ThreadSafeFunction) (p : Payload)
    (g : Globals) : Globals :=
  match handle with
  | Some h =>
      {| g_servers := g_servers g; g_nextServerId := g_nextServerId g;
         g_eventCallback := g_eventCallback g;
         g_rawCallback := g_rawCallback g;
         released := released g; posted := posted g ++ [(h, p)] |}
  | None => g
  end.

Definition EmitToNode (eventName : string) (count : Z)
    (g : Globals) : Globals :=
  post (g_eventCallback g) (ControlEvent eventName count) g.

Definition EmitRawData (data : list byte) (g : Globals) : Globals :=
  post (g_rawCallback g) (RawBuffer data) g.

Definition EmitConnectionEvent (eventType ip : string) (port : Z)
    (g : Globals) : Globals :=
  post (g_eventCallback g) (ConnectionEvent eventType ip port) g.

(** The first checks of [CreateServer]. *)
Definition create_args_ok (info : list JsValue) : bool :=
  match info with
  | a0 :: a1 :: _ => IsNumber a0 && IsFunction a1
  | _ => false
  end.

(** [rawCallbackIndex]: 3 when the third argument is a string, else 2. *)
Definition rawCallbackIndex (info : list JsValue) : nat :=
  match info with
  | _ :: _ :: a2 :: _ => if IsString a2 then 3%nat else 2%nat
  | _ => 2%nat
  end.

(** The function found at [rawCallbackIndex], if there is one. *)
Definition raw_callback_arg (info : list JsValue) : option nat :=
  match nth_error info (rawCallbackIndex info) with
  | Some (JsFunction fn) => Some fn
  | _ => None
  end.

Definition ip_arg (info : list JsValue) : string :=
  match info with
  | _ :: _ :: JsString ip :: _ => ip
  | _ => "127.0.0.1"
  end.

(** [Initialize()]: the answer of [WSAStartup] on Windows, [true]
    elsewhere. *)
Definition Initialize (wsa_ok : bool) : bool := wsa_ok.

(** [CreateServer(info)], against the answers of the platform. *)
Definition CreateServer (info : list JsValue) (wsa_ok : bool)
    (os : SocketOutcome) (g : Globals) : CallResult * Globals :=
  match info with
  | JsNumber port :: JsFunction eventCallback :: _ =>
      let ev := Some (mkTsfn eventCallback "TourBoxEventCallback") in
      let raw :=
        match raw_callback_arg info with
        | Some rawCallback => Some (mkTsfn rawCallback "TourBoxRawCallback")
        | None => g_rawCallback g
        end in
      let g1 :=
        {| g_servers := g_servers g; g_nextServerId := g_nextServerId g;
           g_eventCallback := ev; g_rawCallback := raw;
           released := released g; posted := posted g |} in
      if Initialize wsa_ok then
        match StartServer os new_server with
        | (true, server) =>
            let serverId := g_nextServerId g in
            (Returned (JsNumber serverId),
             {| g_servers := <[serverId := server]> (g_servers g);
                g_nextServerId := int_wrap (g_nextServerId g + 1);
                g_eventCallback := ev; g_rawCallback := raw;
                released := released g; posted := posted g |})
        | (false, _) =>
            (ThrewError
               (String.append "Failed to start TourBox server on "
                  (String.append (ip_arg info)
                     (String.append ":" (pretty port)))), g1)
        end
      else (ThrewError "Failed to initialize TourBox server", g1)
  | _ =>
      (ThrewTypeError
         "Expected arguments: (port: number, eventCallback: function, ip?: string, rawCallback?: function)",
       g)
  end.

Definition handle_list (h : option ThreadSafeFunction)
    : list ThreadSafeFunction :=
  match h with Some t => [t] | None => [] end.

(** [StopServer(info)], for a call that comes to its [return]: the found
    server is stopped and erased, then [Release()] is called on each global
    handle that is set.  When the call does not come that far (the join in
    [Stop()] does not end, or a handle was released before) is in
    [StopServer_call] below. *)
Definition StopServer (info : list JsValue)
    (g : Globals) : CallResult * Globals :=
  match info with
  | JsNumber serverId :: _ =>
      match g_servers g !! serverId with
      | Some _ =>
          (Returned (JsBoolean true),
           {| g_servers := delete serverId (g_servers g);
              g_nextServerId := g_nextServerId g;
              g_eventCallback := g_eventCallback g;
              g_rawCallback := g_rawCallback g;
              released := released g ++ handle_list (g_eventCallback g)
                                     ++ handle_list (g_rawCallback g);
              posted := posted g |})
      | None => (Returned (JsBoolean false), g)
      end
  | _ => (ThrewTypeError "Expected argument: (serverId: number)", g)
  end.

(** One call of a client object reaching the addon. *)
Definition forward (c : Client.Call) (g : Globals) : Globals :=
  match c with
  | Client.CallEmitRawData data => EmitRawData data g
  | Client.CallEmitToNode eventName count => EmitToNode eventName count g
  | Client.CallSetButtonHeld _ _ => g
  end.

(** A connection accepted by listener [serverId] receives one chunk, the
    listener being in [g_servers] and the handles in use: the decoder runs on
    that listener's server object, and its calls reach the global handles.
    For a listener that is not in [g_servers] this definition changes
    nothing; what the thread of such a connection does, and what a chunk
    does when a handle was released, is in [chunk_arrives] below. *)
Definition connection_input (serverId : Z) (data : list byte)
    (g : Globals) : Globals :=
  match g_servers g !! serverId with
  | Some srv =>
      let st := Client.processData data (Client.mkState (Some srv) []) in
      let srv' := match Client.server st with Some s => s | None => srv end in
      fold_left (fun g' c => forward c g') (Client.trace st)
        {| g_servers := <[serverId := srv']> (g_servers g);
           g_nextServerId := g_nextServerId g;
           g_eventCallback := g_eventCallback g;
           g_rawCallback := g_rawCallback g;
           released := released g; posted := posted g |}
  | None => g
  end.

(** What happens to the process, one step at a time. *)
Inductive Step :=
| DoCreate (info : list JsValue) (wsa_ok : bool) (os : SocketOutcome)
| DoStop (info : list JsValue)
| DoInput (serverId : Z) (data : list byte)
| DoLifecycle (eventType ip : string) (port : Z).

Definition step (s : Step) (g : Globals) : Globals :=
  match s with
  | DoCreate info wsa_ok os => snd (CreateServer info wsa_ok os g)
  | DoStop info => snd (StopServer info g)
  | DoInput serverId data => connection_input serverId data g
  | DoLifecycle eventType ip port => EmitConnectionEvent eventType ip port g
  end.

Definition steps (l : list Step) (g : Globals) : Globals :=
  fold_left (fun g' s => step s g') l g.

(** The number of creations among a list of steps. *)
Fixpoint creations (l : list Step) : Z :=
  match l with
  | [] => 0
  | DoCreate _ _ _ :: l' => 1 + creations l'
  | _ :: l' => creations l'
  end.

(** Every live id was handed out by the counter: it is at least 1 and
    below [g_nextServerId], which is at most 1 plus [n]. *)
Definition ids_below (n : Z) (g : Globals) : Prop :=
  1 <= g_nextServerId g <= 1 + n
  /\ forall id, is_Some (g_servers g !! id) ->
                1 <= id < g_nextServerId g.

(** The largest number of creations before [g_nextServerId++] would leave
    the range of [int]. *)
Definition max_creations : Z := 2147483646.

(** *** The payloads of a trace *)

(** What one call of a client puts on the queues of the two handles. *)
Definition payload_of (ev raw : option ThreadSafeFunction)
    (c : Client.Call) : list (ThreadSafeFunction * Payload) :=
  match c with
  | Client.CallEmitRawData data =>
      match raw with Some h => [(h, RawBuffer data)] | None => [] end
  | Client.CallEmitToNode eventName count =>
      match ev with Some h => [(h, ControlEvent eventName count)] | None => [] end
  | Client.CallSetButtonHeld _ _ => []
  end.

Fixpoint payloads (ev raw : option ThreadSafeFunction)
    (t : list Client.Call) : list (ThreadSafeFunction * Payload) :=
  match t with
  | [] => []
  | c :: t' => payload_of ev raw c ++ payloads ev raw t'
  end.

Definition is_connection_event (hp : ThreadSafeFunction * Payload) : bool :=
  match snd hp with
  | ConnectionEvent _ _ _ => true
  | _ => false
  end.

(** Every server object has press codes only as keys of its registry. *)
Definition registries_press_only (g : Globals) : Prop :=
  forall id srv, g_servers g !! id = Some srv -> Client.press_keys_only srv.

(** *** Calls that may not come back *)

(** The process as far as its handles go: the globals, and for each of the
    two global slots whether [Release()] was already called on the handle
    that is in it now.  [CreateServer] puts a new handle into a slot;
    nothing else writes a slot, [StopServer] does not empty it. *)
Record Process := mkProcess {
  globals : Globals;
  eventReleased : bool;
  rawReleased : bool
}.

(** The process when the module is loaded. *)
Definition process_start : Process :=
  {| globals := initial; eventReleased := false; rawReleased := false |}.

Definition with_globals (g : Globals) (p : Process) : Process :=
  {| globals := g; eventReleased := eventReleased p;
     rawReleased := rawReleased p |}.

(** How a piece of code ends: it comes back with a result; the process
    aborts on a handle used after [Release()]; the call never returns (the
    join of an accept thread that does not wake); a server object is
    accessed after its destruction. *)
Inductive Outcome (A : Type) : Type :=
| Done (result : A) (p : Process)
| Aborts
| Blocks
| Undefined.
Arguments Done {A} result p.
Arguments Aborts {A}.
Arguments Blocks {A}.
Arguments Undefined {A}.

Definition and_then {A B : Type} (o : Outcome A)
    (k : A -> Process -> Outcome B) : Outcome B :=
  match o with
  | Done a p => k a p
  | Aborts => Aborts
  | Blocks => Blocks
  | Undefined => Undefined
  end.

(** [if (g_eventCallback) g_eventCallback.NonBlockingCall(...)]: skipped for
    an empty slot, queued on a handle in use, a use after release on a
    handle that [Release()] was called on. *)
Definition post_event (payload : Payload) (p : Process) : Outcome unit :=
  match g_eventCallback (globals p) with
  | None => Done tt p
  | Some h =>
      if eventReleased p then Aborts
      else Done tt (with_globals (post (Some h) payload (globals p)) p)
  end.

(** [if (g_rawCallback) g_rawCallback.NonBlockingCall(...)] *)
Definition post_raw (payload : Payload) (p : Process) : Outcome unit :=
  match g_rawCallback (globals p) with
  | None => Done tt p
  | Some h =>
      if rawReleased p then Aborts
      else Done tt (with_globals (post (Some h) payload (globals p)) p)
  end.

(** [EmitToNode], [EmitRawData] and [EmitConnectionEvent] as calls. *)
Definition EmitToNode_call (eventName : string) (count : Z)
    (p : Process) : Outcome unit :=
  post_event (ControlEvent eventName count) p.

Definition EmitRawData_call (data : list byte) (p : Process) : Outcome unit :=
  post_raw (RawBuffer data) p.

Definition EmitConnectionEvent_call (eventType ip : string) (port : Z)
    (p : Process) : Outcome unit :=
  post_event (ConnectionEvent eventType ip port) p.

(** [CreateServer(info)] as a call: it always comes back.  A handle made by
    [ThreadSafeFunction::New] is in use. *)
Definition CreateServer_call (info : list JsValue) (wsa_ok : bool)
    (os : SocketOutcome) (p : Process) : Outcome CallResult :=
  let r := CreateServer info wsa_ok os (globals p) in
  Done (fst r)
    {| globals := snd r;
       eventReleased :=
         if create_args_ok info then false else eventReleased p;
       rawReleased :=
         if create_args_ok info then
           match raw_callback_arg info with
           | Some _ => false
           | None => rawReleased p
           end
         else rawReleased p |}.

(** [if (handle) handle.Release()]: nothing for an empty slot; the handle
    in the slot becomes released; [None] when it was released before. *)
Definition release_slot (handle : option ThreadSafeFunction)
    (was_released : bool) : option bool :=
  match handle with
  | None => Some was_released
  | Some _ => if was_released then None else Some true
  end.

(** [StopServer(info)] as a call.  For a found server, [Stop()] closes the
    listening socket and joins the accept thread, which ends only if the
    blocked [accept] wakes ([accept_wakes], a matter of the platform); then
    the server is erased and [Release()] is called on the event handle and
    on the raw handle, in that order. *)
Definition StopServer_call (info : list JsValue) (accept_wakes : bool)
    (p : Process) : Outcome CallResult :=
  match info with
  | JsNumber serverId :: _ =>
      match g_servers (globals p) !! serverId with
      | Some _ =>
          if accept_wakes then
            match release_slot (g_eventCallback (globals p))
                               (eventReleased p) with
            | None => Aborts
            | Some ev =>
                match release_slot (g_rawCallback (globals p))
                                   (rawReleased p) with
                | None => Aborts
                | Some raw =>
                    Done (fst (StopServer info (globals p)))
                      {| globals := snd (StopServer info (globals p));
                         eventReleased := ev; rawReleased := raw |}
                end
            end
          else Blocks
      | None => Done (fst (StopServer info (globals p))) p
      end
  | _ => Done (fst (StopServer info (globals p))) p
  end.

(** One call of a client object, as a call of the addon. *)
Definition forward_call (c : Client.Call) (p : Process) : Outcome unit :=
  match c with
  | Client.CallEmitRawData data => EmitRawData_call data p
  | Client.CallEmitToNode eventName count => EmitToNode_call eventName count p
  | Client.CallSetButtonHeld _ _ => Done tt p
  end.

Fixpoint forward_calls (t : list Client.Call) (p : Process) : Outcome unit :=
  match t with
  | [] => Done tt p
  | c :: t' => and_then (forward_call c p) (fun _ => forward_calls t')
  end.

(** [handleTourBoxInput] through a [server] pointer whose object was
    destroyed by [g_servers.erase]: the pointer is not null, so the guards
    [if (server)] pass.  A value without a row returns before them; a press
    row calls [server->SetButtonHeld]; a row that is not a press calls
    [server->IsButtonHeld] when the loop found a press code, and otherwise
    only emits. *)
Inductive DestroyedStep :=
| Emits (c : Client.Call)
| Dereferences.

Definition destroyed_group (g : Z * Z) : list DestroyedStep :=
  match StdMap.find (fst g) Client.controlMap with
  | None => []
  | Some act =>
      if Client.isPress act then [Dereferences]
      else if Client.pressCodeToClear (fst g) Client.controlMap =? -1 then
        match Client.action act with
        | Some lit => [Emits (Client.CallEmitToNode lit (snd g))]
        | None => []
        end
      else [Dereferences]
  end.

Fixpoint destroyed_steps (l : list DestroyedStep)
    (p : Process) : Outcome unit :=
  match l with
  | [] => Done tt p
  | Emits c :: l' => and_then (forward_call c p) (fun _ => destroyed_steps l')
  | Dereferences :: _ => Undefined
  end.

(** A connection accepted by listener [serverId] (an id that was handed
    out) receives one chunk.  While the listener is in [g_servers] the
    decoder works on its server object.  After [StopServer] erased the
    listener the thread of the connection goes on with a pointer to the
    destroyed object: the chunk still goes to [EmitRawData], then the groups
    are handled as far as they do not touch the object. *)
Definition chunk_arrives (serverId : Z) (data : list byte)
    (p : Process) : Outcome unit :=
  match g_servers (globals p) !! serverId with
  | Some srv =>
      let st := Client.processData data (Client.mkState (Some srv) []) in
      let srv' := match Client.server st with Some s => s | None => srv end in
      forward_calls (Client.trace st)
        (with_globals
           {| g_servers := <[serverId := srv']> (g_servers (globals p));
              g_nextServerId := g_nextServerId (globals p);
              g_eventCallback := g_eventCallback (globals p);
              g_rawCallback := g_rawCallback (globals p);
              released := released (globals p);
              posted := posted (globals p) |} p)
  | None =>
      and_then (EmitRawData_call data p)
        (fun _ =>
           destroyed_steps
             (flat_map destroyed_group
                (Client.runs (List.map Client.unsigned_char data))))
  end.

(** The receive loop of a connection, against the answers of [recv]. *)
Fixpoint receive_loop (serverId : Z) (recvs : list Client.RecvResult)
    (p : Process) : Outcome unit :=
  match recvs with
  | [] => Done tt p
  | Client.RecvError :: _ => Done tt p
  | Client.RecvBytes [] :: _ => Done tt p
  | Client.RecvBytes data :: recvs' =>
      and_then (chunk_arrives serverId data p)
        (fun _ => receive_loop serverId recvs')
  end.

(** The body of the accept loop for one accepted connection, followed to
    its end with nothing else happening in the process: the connect event,
    the client's receive loop, the disconnect event. *)
Definition connection_lives (serverId : Z) (ip : string) (port : Z)
    (recvs : list Client.RecvResult) (p : Process) : Outcome unit :=
  and_then (EmitConnectionEvent_call "connect" ip port p)
    (fun _ p1 =>
       and_then (receive_loop serverId recvs p1)
         (fun _ p2 => EmitConnectionEvent_call "disconnect" ip port p2)).

(** What happens to the process, one action at a time. *)
Inductive Action :=
| ActCreate (info : list JsValue) (wsa_ok : bool) (os : SocketOutcome)
| ActStop (info : list JsValue) (accept_wakes : bool)
| ActChunk (serverId : Z) (data : list byte)
| ActLifecycle (eventType ip : string) (port : Z).

Definition act (a : Action) (p : Process) : Outcome unit :=
  match a with
  | ActCreate info wsa_ok os =>
      and_then (CreateServer_call info wsa_ok os p) (fun _ p' => Done tt p')
  | ActStop info accept_wakes =>
      and_then (StopServer_call info accept_wakes p) (fun _ p' => Done tt p')
  | ActChunk serverId data => chunk_arrives serverId data p
  | ActLifecycle eventType ip port => EmitConnectionEvent_call eventType ip port p
  end.

Fixpoint acts (l : list Action) (p : Process) : Outcome unit :=
  match l with
  | [] => Done tt p
  | a :: l' => and_then (act a p) (fun _ => acts l')
  end.

(** The step of the plain model an action stands for. *)
Definition plain (a : Action) : Step :=
  match a with
  | ActCreate info wsa_ok os => DoCreate info wsa_ok os
  | ActStop info _ => DoStop info
  | ActChunk serverId data => DoInput serverId data
  | ActLifecycle eventType ip port => DoLifecycle eventType ip port
  end.

(** A value whose group makes [handleTourBoxInput] call into the server
    object: a press code, or a code some press row is paired with. *)
Definition touches_server (v : Z) : bool :=
  match StdMap.find v Client.controlMap with
  | None => false
  | Some act =>
      Client.isPress act
      || negb (Client.pressCodeToClear v Client.controlMap =? -1)
  end.

(** A slot that can be posted to: empty, or holding a handle in use. *)
Definition slot_usable (handle : option ThreadSafeFunction)
    (was_released : bool) : bool :=
  match handle with
  | None => true
  | Some _ => negb was_released
  end.

End Addon.

(** * Properties *)

Import Server Client.

(** ** Looking things up in the control table *)

Section StdMapFacts.
Context {V : Type}.

Lemma find_In (k : Z) (v : V) (m : list (Z * V)) :
  StdMap.find k m = Some v -> In (k, v) m.
Proof.
  induction m as [|[k' v'] m IH]; simpl; [discriminate|].
  destruct (Z.eqb_spec k' k) as [->|_].
  - intros [= ->]. now left.
  - intros H. right. now apply IH.
Qed.

Lemma find_not_key (k : Z) (m : list (Z * V)) :
  StdMap.find k m = None <-> ~ In k (StdMap.keys m).
Proof.
  induction m as [|[k' v'] m IH]; simpl.
  - tauto.
  - destruct (Z.eqb_spec k' k) as [->|Hne].
    + split; [discriminate | intros H; exfalso; apply H; now left].
    + rewrite IH. split; [intros H [?|?]; [congruence | tauto] | tauto].
Qed.
End StdMapFacts.

(** A boolean check that holds on every row of the table holds for every
    successful lookup. *)
Lemma controlMap_check (P : Z -> ControlAction -> bool) :
  forallb (fun kv => P (fst kv) (snd kv)) controlMap = true ->
  forall k ca, StdMap.find k controlMap = Some ca -> P k ca = true.
Proof.
  intros Hall k ca Hfind.
  apply find_In in Hfind.
  rewrite forallb_forall in Hall.
  exact (Hall (k, ca) Hfind).
Qed.

(** The keys of the table are pairwise different, so a row is what its key
    looks up. *)
Lemma controlMap_In_find (k : Z) (ca : ControlAction) :
  In (k, ca) controlMap -> StdMap.find k controlMap = Some ca.
Proof.
  intros H. vm_compute in H.
  repeat (destruct H as [H|H]; [injection H as <- <-; reflexivity|]).
  contradiction.
Qed.

Lemma action_is_name (k : Z) (ca : ControlAction) :
  StdMap.find k controlMap = Some ca -> action ca = Some (name ca).
Proof.
  intros H.
  apply (controlMap_check
           (fun _ c => bool_decide (action c = Some (name c)))) in H.
  - now apply bool_decide_eq_true in H.
  - vm_compute. reflexivity.
Qed.

(** What the loop of the release branch returns, when it is not [-1], is a
    press row paired with the release value. *)
Lemma pressCodeToClear_sound (v : Z) (m : list (Z * ControlAction)) :
  pressCodeToClear v m <> -1 ->
  exists cp, In (pressCodeToClear v m, cp) m
             /\ isPress cp = true /\ releaseCode cp = v.
Proof.
  induction m as [|[code ca] m IH]; simpl; [congruence|].
  destruct (isPress ca) eqn:Hp; simpl.
  - destruct (Z.eqb_spec (releaseCode ca) v) as [Hr|_].
    + intros _. exists ca. auto.
    + intros H. destruct (IH H) as (cp & Hin & ? & ?). exists cp. auto.
  - intros H. destruct (IH H) as (cp & Hin & ? & ?). exists cp. auto.
Qed.

(** On the table, the loop finds every press row from its release code. *)
Lemma pressCodeToClear_complete (p : Z) (cp : ControlAction) :
  StdMap.find p controlMap = Some cp -> isPress cp = true ->
  pressCodeToClear (releaseCode cp) controlMap = p /\ p <> -1.
Proof.
  intros Hfind Hpress.
  apply (controlMap_check
           (fun k c => implb (isPress c)
                         ((pressCodeToClear (releaseCode c) controlMap =? k)
                          && negb (k =? -1)))) in Hfind.
  - rewrite Hpress in Hfind. simpl in Hfind.
    apply andb_true_iff in Hfind as [H1 H2].
    apply Z.eqb_eq in H1. apply negb_true_iff, Z.eqb_neq in H2. auto.
  - vm_compute. reflexivity.
Qed.

(** ** The hexadecimal detour *)

(** One byte: its field has two characters, which convert back to it. *)
Lemma hex_field_two_chars (b : byte) :
  exists c1 c2, hex_field (unsigned_char b) = String c1 (String c2 "").
Proof.
  destruct b; do 2 eexists; reflexivity.
Qed.

Lemma stoi16_hex_field (b : byte) :
  stoi16 (hex_field (unsigned_char b)) = Some (unsigned_char b).
Proof.
  destruct b; vm_compute; reflexivity.
Qed.

Lemma hex_field_stoi16 (b : byte) :
  exists c1 c2,
    hex_field (unsigned_char b) = String c1 (String c2 "")
    /\ stoi16 (String c1 (String c2 "")) = Some (unsigned_char b).
Proof.
  destruct (hex_field_two_chars b) as (c1 & c2 & Hf).
  exists c1, c2. split; [exact Hf|].
  rewrite <- Hf. apply stoi16_hex_field.
Qed.

Lemma unsigned_char_range (b : byte) : 0 <= unsigned_char b <= 255.
Proof.
  unfold unsigned_char.
  pose proof (Byte.to_N_bounded b) as H.
  lia.
Qed.

Lemma hex_to_bytes_hexData (buffer : list byte) :
  hex_to_bytes (hexData buffer) = Some (List.map unsigned_char buffer).
Proof.
  induction buffer as [|b buffer IH]; simpl; [reflexivity|].
  destruct (hex_field_stoi16 b) as (c1 & c2 & Hf & Hs).
  rewrite Hf.
  change (String c1 (String c2 "") +:+ hexData buffer)
    with (String c1 (String c2 (hexData buffer))).
  cbn [hex_to_bytes]. rewrite Hs, IH. reflexivity.
Qed.

Lemma hexData_length (buffer : list byte) :
  String.length (hexData buffer) = (2 * length buffer)%nat.
Proof.
  induction buffer as [|b buffer IH]; simpl; [reflexivity|].
  destruct (hex_field_stoi16 b) as (c1 & c2 & Hf & _).
  rewrite Hf.
  change (String c1 (String c2 "") +:+ hexData buffer)
    with (String c1 (String c2 (hexData buffer))).
  cbn [String.length]. rewrite IH. lia.
Qed.

Lemma parse_is_group_bytes (buffer : list byte) (st : State) :
  parseTourBoxData (hexData buffer) st
  = group_bytes (List.map unsigned_char buffer) st.
Proof.
  unfold parseTourBoxData. now rewrite hex_to_bytes_hexData.
Qed.

(** ** Grouping *)

Lemma group_loop_runs_from (bytes : list Z) :
  forall currentValue count st,
    group_loop bytes currentValue count st
    = handle_groups (runs_from bytes currentValue count) st.
Proof.
  induction bytes as [|b bytes IH]; intros cur cnt st; simpl.
  - reflexivity.
  - destruct (b =? cur).
    + apply IH.
    + rewrite IH. reflexivity.
Qed.

(** Carrying a group into a byte list is merging it with the first run. *)
Lemma runs_from_runs (bytes : list Z) :
  forall cur cnt,
    runs_from bytes cur cnt
    = match runs bytes with
      | (y, k) :: g => if cur =? y then (cur, cnt + k) :: g
                       else (cur, cnt) :: (y, k) :: g
      | [] => [(cur, cnt)]
      end.
Proof.
  induction bytes as [|b bytes IH]; intros cur cnt; simpl; [reflexivity|].
  destruct (Z.eqb_spec b cur) as [->|Hne].
  - rewrite IH. destruct (runs bytes) as [|[y k] g].
    + now rewrite Z.eqb_refl.
    + destruct (cur =? y); rewrite Z.eqb_refl; [|reflexivity].
      f_equal. f_equal. lia.
  - rewrite IH. destruct (runs bytes) as [|[y k] g].
    + destruct (Z.eqb_spec cur b); [congruence | reflexivity].
    + destruct (b =? y);
        (destruct (Z.eqb_spec cur b); [congruence|]);
        [do 3 f_equal; lia | reflexivity].
Qed.

Lemma runs_cons (x : Z) (l : list Z) : runs (x :: l) = runs_from l x 1.
Proof.
  rewrite runs_from_runs. simpl.
  destruct (runs l) as [|[y k] g]; [reflexivity|].
  destruct (x =? y); [|reflexivity].
  do 2 f_equal. lia.
Qed.

Lemma group_bytes_runs (bytes : list Z) (st : State) :
  group_bytes bytes st = handle_groups (runs bytes) st.
Proof.
  destruct bytes as [|b0 bytes]; [reflexivity|].
  unfold group_bytes. now rewrite group_loop_runs_from, runs_cons.
Qed.

Lemma processData_runs (buffer : list byte) (st : State) :
  processData buffer st
  = handle_groups (runs (List.map unsigned_char buffer))
      (call_EmitRawData buffer st).
Proof.
  unfold processData. now rewrite parse_is_group_bytes, group_bytes_runs.
Qed.

(** [runs] yields the maximal runs: the groups spell the input, hold at
    least one byte each, and neighbours differ. *)
Lemma runs_positive (l : list Z) : Forall (fun g => 1 <= snd g) (runs l).
Proof.
  induction l as [|x l IH]; simpl; [constructor|].
  destruct (runs l) as [|[y k] g]; [repeat constructor; simpl; lia|].
  inversion IH as [|? ? Hk Hg]; subst; simpl in Hk.
  destruct (x =? y); repeat constructor; simpl; auto; lia.
Qed.

Lemma expand_runs (l : list Z) : expand (runs l) = l.
Proof.
  induction l as [|x l IH]; simpl; [reflexivity|].
  pose proof (runs_positive l) as Hpos.
  destruct (runs l) as [|[y k] g]; simpl in *.
  - now rewrite <- IH.
  - apply Forall_inv in Hpos. simpl in Hpos.
    destruct (Z.eqb_spec x y) as [->|_]; simpl.
    + replace (Z.to_nat (k + 1)) with (S (Z.to_nat k)) by lia.
      simpl. now rewrite IH.
    + now rewrite IH.
Qed.

Lemma runs_adjacent_differ (l : list Z) : adjacent_differ (runs l).
Proof.
  induction l as [|x l IH]; simpl; [exact I|].
  destruct (runs l) as [|[y k] g]; simpl; [exact I|].
  destruct (Z.eqb_spec x y) as [->|Hne]; simpl.
  - destruct g as [|[z j] g]; simpl in *; tauto.
  - split; [assumption|]. destruct g as [|[z j] g]; simpl in *; tauto.
Qed.

(** A chunk of [S n] copies of one value is a single run of that length. *)
Lemma runs_repeat (x : Z) (n : nat) :
  runs (repeat x (S n)) = [(x, Z.of_nat (S n))].
Proof.
  induction n as [|n IH].
  - reflexivity.
  - change (repeat x (S (S n))) with (x :: repeat x (S n)).
    cbn [runs]. rewrite IH, Z.eqb_refl. do 2 f_equal. lia.
Qed.

(** The receive loop over chunks that are not empty: each chunk goes
    through [processData], in order. *)
Lemma Run_chunks (chunks : list (byte * list byte)) :
  forall st,
    Run (List.map (fun c => RecvBytes (fst c :: snd c)) chunks) st
    = fold_left (fun s c => processData (fst c :: snd c) s) chunks st.
Proof.
  induction chunks as [|[b bs] chunks IH]; intros st; simpl; [reflexivity|].
  apply IH.
Qed.

(** The maximal runs are the only grouping with these three properties. *)
Lemma runs_block (x : Z) (n : nat) (l : list Z) :
  match runs l with (y, _) :: _ => x <> y | [] => True end ->
  runs (repeat x (S n) ++ l) = (x, Z.of_nat (S n)) :: runs l.
Proof.
  intros Hhead. induction n as [|n IH].
  - simpl. destruct (runs l) as [|[y k] g]; [reflexivity|].
    destruct (Z.eqb_spec x y); [contradiction | reflexivity].
  - change (repeat x (S (S n)) ++ l) with (x :: (repeat x (S n) ++ l)).
    cbn [runs]. rewrite IH, Z.eqb_refl. do 2 f_equal. lia.
Qed.

Lemma runs_unique (g : list (Z * Z)) :
  Forall (fun vc => 1 <= snd vc) g -> adjacent_differ g ->
  runs (expand g) = g.
Proof.
  induction g as [|[x k] g IH]; intros Hpos Hadj; [reflexivity|].
  inversion Hpos as [|? ? Hk Hpos']; subst; simpl in Hk.
  assert (Hadj' : adjacent_differ g)
    by (destruct g as [|[y j] g]; simpl in *; tauto).
  specialize (IH Hpos' Hadj').
  cbn [expand].
  replace (Z.to_nat k) with (S (Z.to_nat (k - 1))) by lia.
  rewrite runs_block.
  - rewrite IH. do 2 f_equal. lia.
  - rewrite IH. destruct g as [|[y j] g]; simpl in *; tauto.
Qed.

(** ** The claims on the decoder *)

(** C1.  Every received chunk is handled as its maximal runs of equal
    bytes: [processData] calls [handleTourBoxInput] once per run, first run
    first, with the run's byte value and length; the runs spell the chunk,
    are never empty, have different neighbours, and are the only grouping
    with these properties; [k] copies of a byte in one chunk are one group
    of count [k].  The receive loop handles each chunk on its own, so the
    chunks [A,A] and [A] give the counts 2 and then 1. *)
Theorem C1_chunk_is_handled_run_by_run :
  (forall (buffer : list byte) (st : State),
      processData buffer st
      = handle_groups (runs (List.map unsigned_char buffer))
          (call_EmitRawData buffer st))
  /\ (forall l : list Z,
         expand (runs l) = l
         /\ Forall (fun g => 1 <= snd g) (runs l)
         /\ adjacent_differ (runs l))
  /\ (forall g : list (Z * Z),
         Forall (fun vc => 1 <= snd vc) g -> adjacent_differ g ->
         runs (expand g) = g)
  /\ (forall (b : Z) (k : nat), runs (repeat b (S k)) = [(b, Z.of_nat (S k))])
  /\ (forall (chunks : list (byte * list byte)) (st : State),
         Run (List.map (fun c => RecvBytes (fst c :: snd c)) chunks) st
         = fold_left
             (fun s c =>
                handle_groups (runs (List.map unsigned_char (fst c :: snd c)))
                  (call_EmitRawData (fst c :: snd c) s))
             chunks st)
  /\ (forall (a : byte) (st : State),
         Run [RecvBytes [a; a]; RecvBytes [a]] st
         = handleTourBoxInput (unsigned_char a) 1
             (call_EmitRawData [a]
                (handleTourBoxInput (unsigned_char a) 2
                   (call_EmitRawData [a; a] st))))
  /\ emitted (trace (Run [RecvBytes (chunk [34; 34]); RecvBytes (chunk [34])]
                       (mkState (Some new_server) [])))
     = [("C1 Press", 2); ("C1 Press", 1)].
Proof.
  split; [exact processData_runs|].
  split; [intros l; auto using expand_runs, runs_positive,
                               runs_adjacent_differ|].
  split; [exact runs_unique|].
  split; [exact runs_repeat|].
  split.
  { intros chunks st. rewrite Run_chunks. revert st.
    induction chunks as [|c chunks IH]; intros st; [reflexivity|].
    cbn [fold_left]. rewrite processData_runs. apply IH. }
  split; [|vm_compute; reflexivity].
  intros a st.
  change (Run [RecvBytes [a; a]; RecvBytes [a]] st)
    with (processData [a] (processData [a; a] st)).
  rewrite !processData_runs.
  change (List.map unsigned_char [a; a])
    with (repeat (unsigned_char a) 2).
  change (List.map unsigned_char [a]) with (repeat (unsigned_char a) 1).
  rewrite !runs_repeat. reflexivity.
Qed.

Lemma C1_witness :
  Forall (fun vc => 1 <= snd vc) [(34, 2); (162, 1)]
  /\ adjacent_differ [(34, 2); (162, 1)]
  /\ runs (expand [(34, 2); (162, 1)]) = [(34, 2); (162, 1)].
Proof.
  assert (Hpos : Forall (fun vc : Z * Z => 1 <= snd vc) [(34, 2); (162, 1)])
    by (repeat constructor; simpl; lia).
  assert (Hadj : adjacent_differ [(34, 2); (162, 1)])
    by (simpl; split; [lia | exact I]).
  split; [exact Hpos|]. split; [exact Hadj|].
  exact (proj1 (proj2 (proj2 C1_chunk_is_handled_run_by_run)) _ Hpos Hadj).
Defined.

(** C10.  The hexadecimal string built from the [N] received bytes has
    [2N] characters, and reading it back two characters at a time yields
    exactly the unsigned values of those bytes, each between 0 and 255, in
    order; so the grouping stage runs on the byte sequence that arrived. *)
Theorem C10_hex_round_trip (buffer : list byte) :
  String.length (hexData buffer) = (2 * length buffer)%nat
  /\ hex_to_bytes (hexData buffer) = Some (List.map unsigned_char buffer)
  /\ Forall (fun v => 0 <= v <= 255) (List.map unsigned_char buffer)
  /\ (forall st : State,
         parseTourBoxData (hexData buffer) st
         = group_bytes (List.map unsigned_char buffer) st).
Proof.
  split; [apply hexData_length|].
  split; [apply hex_to_bytes_hexData|].
  split; [|intros st; apply parse_is_group_bytes].
  induction buffer as [|b buffer IH]; simpl; constructor;
    [apply unsigned_char_range | exact IH].
Qed.

(** C2.  A group whose byte looks up a press row, in a decoder whose
    [server] pointer is set (the listener builds every decoder with
    [this]): the decoder first calls
    [SetButtonHeld(byte, true)] on its server, then [EmitToNode] with the
    row's name and the count, and nothing else; when the event is out the
    registry holds [true] for the byte, so [IsButtonHeld(byte)] answers
    [true]. *)
Theorem C2_press_sets_held_then_emits
    (value count : Z) (ca : ControlAction)
    (srv : TourBoxServerWrapper) (tr : list Call) :
  StdMap.find value controlMap = Some ca ->
  isPress ca = true ->
  let st' := handleTourBoxInput value count (mkState (Some srv) tr) in
  trace st' = tr ++ [CallSetButtonHeld value true;
                     CallEmitToNode (name ca) count]
  /\ server st' = Some (SetButtonHeld value true srv)
  /\ buttonStates (SetButtonHeld value true srv) !! value = Some true
  /\ IsButtonHeld value (SetButtonHeld value true srv) = true.
Proof.
  intros Hfind Hpress st'. subst st'.
  unfold handleTourBoxInput.
  rewrite Hfind, Hpress, (action_is_name _ _ Hfind). cbn.
  rewrite <- app_assoc. cbn.
  unfold IsButtonHeld. cbn. rewrite lookup_insert_eq. auto.
Qed.

Lemma C2_witness :
  let st' := handleTourBoxInput 34 3 (mkState (Some new_server) []) in
  trace st' = [CallSetButtonHeld 34 true; CallEmitToNode "C1 Press" 3]
  /\ server st' = Some (SetButtonHeld 34 true new_server)
  /\ buttonStates (SetButtonHeld 34 true new_server) !! 34 = Some true
  /\ IsButtonHeld 34 (SetButtonHeld 34 true new_server) = true.
Proof.
  exact (C2_press_sets_held_then_emits 34 3
           (mkControlAction "C1 Press" true 162 (Some "C1 Press"))
           new_server [] eq_refl eq_refl).
Defined.

(** The release branch of [handleTourBoxInput], on a server that is there. *)
Lemma handle_not_press (value count : Z) (ca : ControlAction)
    (srv : TourBoxServerWrapper) (tr : list Call) :
  StdMap.find value controlMap = Some ca ->
  isPress ca = false ->
  handleTourBoxInput value count (mkState (Some srv) tr)
  = let p := pressCodeToClear value controlMap in
    if negb (p =? -1) && IsButtonHeld p srv
    then mkState (Some (SetButtonHeld p false srv))
           (tr ++ [CallSetButtonHeld p false; CallEmitToNode (name ca) count])
    else mkState (Some srv) (tr ++ [CallEmitToNode (name ca) count]).
Proof.
  intros Hfind Hpress. unfold handleTourBoxInput.
  rewrite Hfind, Hpress, (action_is_name _ _ Hfind).
  cbv zeta. cbn [server].
  generalize (pressCodeToClear value controlMap). intros p.
  destruct (negb (p =? -1) && IsButtonHeld p srv).
  - unfold call_EmitToNode, call_SetButtonHeld.
    cbn [server trace option_map]. now rewrite <- app_assoc.
  - reflexivity.
Qed.

Lemma emitted_app (t1 t2 : list Call) :
  emitted (t1 ++ t2) = emitted t1 ++ emitted t2.
Proof.
  induction t1 as [|[d|c h|n c] t1 IH]; simpl; congruence.
Qed.

Lemma writes_app (t1 t2 : list Call) :
  writes (t1 ++ t2) = writes t1 ++ writes t2.
Proof.
  induction t1 as [|[d|c h|n c] t1 IH]; simpl; congruence.
Qed.

(** C3.  A group whose byte looks up a row that is not a press ([isPress]
    is [false], as for every release), in a decoder whose [server] pointer
    is set.  If a press row [p] has this byte as
    its release code and [p] is held, the decoder writes [false] for [p] and
    then emits the row's name with the count.  If no press row paired with
    the byte is held (there is none, or it is not held), the decoder only
    emits: the registry is not written and the server is as before.  In both
    cases exactly one event is emitted. *)
Theorem C3_release_clears_held_press_and_emits
    (value count : Z) (ca : ControlAction)
    (srv : TourBoxServerWrapper) (tr : list Call) :
  StdMap.find value controlMap = Some ca ->
  isPress ca = false ->
  let st' := handleTourBoxInput value count (mkState (Some srv) tr) in
  (forall p cp,
      StdMap.find p controlMap = Some cp -> isPress cp = true ->
      releaseCode cp = value -> IsButtonHeld p srv = true ->
      server st' = Some (SetButtonHeld p false srv)
      /\ trace st' = tr ++ [CallSetButtonHeld p false;
                            CallEmitToNode (name ca) count]
      /\ IsButtonHeld p (SetButtonHeld p false srv) = false)
  /\ ((forall p cp,
          StdMap.find p controlMap = Some cp -> isPress cp = true ->
          releaseCode cp = value -> IsButtonHeld p srv = false) ->
      server st' = Some srv
      /\ trace st' = tr ++ [CallEmitToNode (name ca) count]
      /\ writes (trace st') = writes tr)
  /\ emitted (trace st') = emitted tr ++ [(name ca, count)].
Proof.
  intros Hfind Hpress st'. subst st'.
  rewrite (handle_not_press _ _ _ _ _ Hfind Hpress). cbv zeta.
  split; [|split].
  - intros p cp Hp Hpp Hrel Hheld.
    destruct (pressCodeToClear_complete p cp Hp Hpp) as [Hloop Hne].
    rewrite Hrel in Hloop. rewrite Hloop, Hheld.
    apply Z.eqb_neq in Hne. rewrite Hne. cbn.
    unfold IsButtonHeld. cbn. rewrite lookup_insert_eq. auto.
  - intros Hnone.
    assert (Hcond : negb (pressCodeToClear value controlMap =? -1)
                    && IsButtonHeld (pressCodeToClear value controlMap) srv
                    = false).
    { destruct (Z.eqb_spec (pressCodeToClear value controlMap) (-1))
        as [_|Hne]; [reflexivity|]. cbn.
      destruct (pressCodeToClear_sound value controlMap Hne)
        as (cp & Hin & Hpp & Hrel).
      apply controlMap_In_find in Hin. eauto. }
    rewrite Hcond. cbn. rewrite writes_app. cbn.
    now rewrite app_nil_r.
  - destruct (negb (pressCodeToClear value controlMap =? -1)
              && IsButtonHeld (pressCodeToClear value controlMap) srv);
      cbn; rewrite emitted_app; reflexivity.
Qed.

Lemma C3_witness :
  let held := SetButtonHeld 34 true new_server in
  (let st' := handleTourBoxInput 162 1 (mkState (Some held) []) in
   server st' = Some (SetButtonHeld 34 false held)
   /\ trace st' = [CallSetButtonHeld 34 false; CallEmitToNode "C1 Release" 1]
   /\ IsButtonHeld 34 (SetButtonHeld 34 false held) = false)
  /\ (let st' := handleTourBoxInput 162 1 (mkState (Some new_server) []) in
      server st' = Some new_server
      /\ trace st' = [CallEmitToNode "C1 Release" 1]
      /\ writes (trace st') = []).
Proof.
  split.
  - exact (proj1 (C3_release_clears_held_press_and_emits 162 1
                    (mkControlAction "C1 Release" false (-1)
                       (Some "C1 Release"))
                    (SetButtonHeld 34 true new_server) [] eq_refl eq_refl)
             34 (mkControlAction "C1 Press" true 162 (Some "C1 Press"))
             eq_refl eq_refl eq_refl eq_refl).
  - exact (proj1 (proj2 (C3_release_clears_held_press_and_emits 162 1
                           (mkControlAction "C1 Release" false (-1)
                              (Some "C1 Release"))
                           new_server [] eq_refl eq_refl))
             (fun p _ _ _ _ =>
                f_equal (fun o : option bool =>
                           match o with Some held => held | None => false end)
                        (lookup_empty (M := gmap Z) (A := bool) p))).
Defined.

(** A row that is not a press and has no press paired with its byte. *)
Lemma handle_unpaired (value count : Z) (ca : ControlAction)
    (srv : TourBoxServerWrapper) (tr : list Call) :
  StdMap.find value controlMap = Some ca ->
  isPress ca = false ->
  pressCodeToClear value controlMap = -1 ->
  handleTourBoxInput value count (mkState (Some srv) tr)
  = mkState (Some srv) (tr ++ [CallEmitToNode (name ca) count]).
Proof.
  intros Hfind Hpress Hloop.
  rewrite (handle_not_press _ _ _ _ _ Hfind Hpress), Hloop. reflexivity.
Qed.

(** C4.  A group whose byte is one of the six rotation codes, in a decoder
    whose [server] pointer is set: the decoder
    emits the row's name with the count and does nothing else; the server,
    and with it every entry of the registry, is as before.  Scenario S1:
    the chunk [132,132,132,196] gives ("Knob CCW",3) and ("Knob CW",1) and
    leaves an empty registry empty. *)
Theorem C4_rotation_emits_without_registry
    (value count : Z) (srv : TourBoxServerWrapper) (tr : list Call) :
  In value [132; 196; 137; 201; 143; 207] ->
  (exists ca,
      StdMap.find value controlMap = Some ca
      /\ isPress ca = false
      /\ handleTourBoxInput value count (mkState (Some srv) tr)
         = mkState (Some srv) (tr ++ [CallEmitToNode (name ca) count]))
  /\ (let st' := processData (chunk [132; 132; 132; 196])
                   (mkState (Some new_server) []) in
      emitted (trace st') = [("Knob CCW", 3); ("Knob CW", 1)]
      /\ writes (trace st') = []
      /\ server st' = Some new_server).
Proof.
  intros Hin. split; [|vm_compute; auto].
  simpl in Hin.
  repeat (destruct Hin as [<-|Hin];
          [eexists; split; [reflexivity|]; split; [reflexivity|];
           apply handle_unpaired; reflexivity|]).
  contradiction.
Qed.

Lemma C4_witness :
  exists ca,
    StdMap.find 132 controlMap = Some ca
    /\ isPress ca = false
    /\ handleTourBoxInput 132 3 (mkState (Some new_server) [])
       = mkState (Some new_server) [CallEmitToNode (name ca) 3].
Proof.
  exact (proj1 (C4_rotation_emits_without_registry 132 3 new_server []
                  (or_introl eq_refl))).
Defined.

(** C5.  A group whose byte value is not a key of the control table leaves
    the decoder state as it was: nothing is emitted, nothing is written.
    The keys are the 34 codes of the table; a chunk made of other bytes only
    reaches the raw-data callback. *)
Theorem C5_unknown_byte_is_dropped (value count : Z) (st : State) :
  ~ In value (StdMap.keys controlMap) ->
  handleTourBoxInput value count st = st
  /\ StdMap.keys controlMap
     = [0; 1; 2; 3; 10; 16; 17; 18; 19; 34; 35; 42; 55; 56;
        128; 129; 130; 131; 132; 137; 138; 143; 144; 145; 146; 147;
        162; 163; 170; 183; 184; 196; 201; 207]
  /\ processData (chunk [99; 99; 7]) st = call_EmitRawData (chunk [99; 99; 7]) st.
Proof.
  intros Hkey. apply find_not_key in Hkey.
  split; [|split; reflexivity].
  unfold handleTourBoxInput. now rewrite Hkey.
Qed.

Lemma C5_witness :
  handleTourBoxInput 99 1 (mkState (Some new_server) [])
  = mkState (Some new_server) [].
Proof.
  refine (proj1 (C5_unknown_byte_is_dropped 99 1
                   (mkState (Some new_server) []) _)).
  vm_compute. intros H.
  repeat (destruct H as [H|H]; [discriminate H|]).
  exact H.
Defined.

(** C6.  The table built by [initializeControlMap].  Every row is a press
    (it carries a release code), a release (not a press, no release code,
    and some press row is paired with its byte) or a rotation (not a press,
    no release code, no press row paired with its byte).  The release code
    of every press row is the byte of a row that is not a press.  Different
    press rows have different release codes.  No row has its own byte as
    release code. *)
Theorem C6_control_table_invariants :
  (forall b ca,
      StdMap.find b controlMap = Some ca ->
      (isPress ca = true /\ releaseCode ca <> -1)
      \/ (isPress ca = false /\ releaseCode ca = -1
          /\ exists p cp, StdMap.find p controlMap = Some cp
                          /\ isPress cp = true /\ releaseCode cp = b)
      \/ (isPress ca = false /\ releaseCode ca = -1
          /\ forall p cp, StdMap.find p controlMap = Some cp ->
                          isPress cp = true -> releaseCode cp <> b))
  /\ (forall p cp,
         StdMap.find p controlMap = Some cp -> isPress cp = true ->
         exists r, StdMap.find (releaseCode cp) controlMap = Some r
                   /\ isPress r = false)
  /\ (forall p q cp cq,
         StdMap.find p controlMap = Some cp ->
         StdMap.find q controlMap = Some cq ->
         isPress cp = true -> isPress cq = true -> p <> q ->
         releaseCode cp <> releaseCode cq)
  /\ (forall b ca,
         StdMap.find b controlMap = Some ca -> releaseCode ca <> b)
  /\ length controlMap = length controlMap_init.
Proof.
  split; [|split; [|split; [|split; [|reflexivity]]]].
  - intros b ca Hfind.
    pose proof (controlMap_check
                  (fun _ c => if isPress c then negb (releaseCode c =? -1)
                              else releaseCode c =? -1)
                  eq_refl b ca Hfind) as Hrow.
    cbv beta in Hrow.
    destruct (isPress ca) eqn:Hp.
    + left. apply negb_true_iff, Z.eqb_neq in Hrow. auto.
    + right. apply Z.eqb_eq in Hrow.
      destruct (Z.eq_dec (pressCodeToClear b controlMap) (-1)) as [Heq|Hne].
      * right. repeat split; auto.
        intros p cp Hfp Hpp Hrel.
        destruct (pressCodeToClear_complete p cp Hfp Hpp) as [Hl Hn].
        rewrite Hrel in Hl. congruence.
      * left. repeat split; auto.
        destruct (pressCodeToClear_sound b controlMap Hne)
          as (cp & Hin & Hpp & Hrel).
        apply controlMap_In_find in Hin. eauto.
  - intros p cp Hfind Hpress.
    pose proof (controlMap_check
                  (fun _ c =>
                     implb (isPress c)
                       (match StdMap.find (releaseCode c) controlMap with
                        | Some r => negb (isPress r)
                        | None => false
                        end))
                  eq_refl p cp Hfind) as Hrow.
    cbv beta in Hrow. rewrite Hpress in Hrow. cbn [implb] in Hrow.
    destruct (StdMap.find (releaseCode cp) controlMap) as [r|];
      [|discriminate].
    exists r. split; [reflexivity|]. now apply negb_true_iff.
  - intros p q cp cq Hp Hq Hpp Hpq Hne Heq.
    destruct (pressCodeToClear_complete p cp Hp Hpp) as [Hl1 _].
    destruct (pressCodeToClear_complete q cq Hq Hpq) as [Hl2 _].
    congruence.
  - intros b ca Hfind.
    pose proof (controlMap_check
                  (fun k c => negb (releaseCode c =? k))
                  eq_refl b ca Hfind) as Hrow.
    now apply negb_true_iff, Z.eqb_neq in Hrow.
Qed.

Lemma C6_witness :
  exists r, StdMap.find 162 controlMap = Some r /\ isPress r = false.
Proof.
  exact (proj1 (proj2 C6_control_table_invariants) 34
           (mkControlAction "C1 Press" true 162 (Some "C1 Press"))
           eq_refl eq_refl).
Defined.

(** ** The host-facing surface *)

Import Addon.

(** What the calls of a decoder do to the globals: only [posted] grows, and
    only by payloads on the two global handles. *)
Lemma forward_all_frame (t : list Call) :
  forall g,
    let g' := fold_left (fun a c => forward c a) t g in
    g_servers g' = g_servers g
    /\ g_nextServerId g' = g_nextServerId g
    /\ g_eventCallback g' = g_eventCallback g
    /\ g_rawCallback g' = g_rawCallback g
    /\ released g' = released g
    /\ exists new,
         posted g' = posted g ++ new
         /\ Forall (fun hp => In (fst hp)
                                (handle_list (g_eventCallback g)
                                 ++ handle_list (g_rawCallback g))) new.
Proof.
  induction t as [|c t IH]; intros g; cbn [fold_left].
  - split_and!; try reflexivity. exists []. split; [|constructor].
    now rewrite app_nil_r.
  - specialize (IH (forward c g)). cbv zeta in IH |- *.
    destruct IH as (Hs & Hn & He & Hr & Hl & new & Hp & Hall).
    assert (Hstep :
      g_servers (forward c g) = g_servers g
      /\ g_nextServerId (forward c g) = g_nextServerId g
      /\ g_eventCallback (forward c g) = g_eventCallback g
      /\ g_rawCallback (forward c g) = g_rawCallback g
      /\ released (forward c g) = released g
      /\ exists one,
           posted (forward c g) = posted g ++ one
           /\ Forall (fun hp => In (fst hp)
                                  (handle_list (g_eventCallback g)
                                   ++ handle_list (g_rawCallback g))) one).
    { destruct c as [data|code held|eventName count]; cbn [forward];
        unfold EmitRawData, EmitToNode, post.
      - destruct (g_rawCallback g) as [h|] eqn:Hraw; cbn;
          split_and!; auto.
        + eexists. split; [reflexivity|].
          constructor; [|constructor]. cbn.
          apply in_or_app. right. now left.
        + exists []. split; [now rewrite app_nil_r | constructor].
      - split_and!; auto.
        exists []. split; [now rewrite app_nil_r | constructor].
      - destruct (g_eventCallback g) as [h|] eqn:Hev; cbn;
          split_and!; auto.
        + eexists. split; [reflexivity|].
          constructor; [|constructor]. cbn. now left.
        + exists []. split; [now rewrite app_nil_r | constructor]. }
    destruct Hstep as (Hs1 & Hn1 & He1 & Hr1 & Hl1 & one & Hp1 & Hall1).
    rewrite Hs, Hn, He, Hr, Hl, Hs1, Hn1, He1, Hr1, Hl1.
    split_and!; auto.
    exists (one ++ new). split.
    + rewrite Hp, Hp1. now rewrite app_assoc.
    + apply Forall_app. split; [exact Hall1|].
      rewrite He1, Hr1 in Hall. exact Hall.
Qed.

Lemma is_Some_overwrite {V : Type} (m : gmap Z V) (k id : Z) (v v' : V) :
  m !! k = Some v ->
  is_Some (<[k := v']> m !! id) <-> is_Some (m !! id).
Proof.
  intros Hk. destruct (decide (k = id)) as [->|Hne].
  - rewrite lookup_insert_eq, Hk. split; eauto.
  - now rewrite lookup_insert_ne.
Qed.

Lemma connection_input_frame (serverId : Z) (data : list byte) (g : Globals) :
  let g' := connection_input serverId data g in
  (forall id, is_Some (g_servers g' !! id) <-> is_Some (g_servers g !! id))
  /\ g_nextServerId g' = g_nextServerId g
  /\ g_eventCallback g' = g_eventCallback g
  /\ g_rawCallback g' = g_rawCallback g
  /\ released g' = released g
  /\ exists new,
       posted g' = posted g ++ new
       /\ Forall (fun hp => In (fst hp)
                              (handle_list (g_eventCallback g)
                               ++ handle_list (g_rawCallback g))) new.
Proof.
  unfold connection_input.
  destruct (g_servers g !! serverId) as [srv|] eqn:Hlive.
  - match goal with
    | |- context [fold_left _ ?t ?g0] =>
        pose proof (forward_all_frame t g0) as H
    end.
    cbv zeta in H |- *. cbn [g_servers g_nextServerId g_eventCallback
                             g_rawCallback released posted] in H.
    destruct H as (Hs & Hn & He & Hr & Hl & new & Hp & Hall).
    rewrite Hs, Hn, He, Hr, Hl.
    split_and!; auto.
    + intros id. eapply is_Some_overwrite, Hlive.
    + eauto.
  - cbv zeta. split_and!; auto.
    exists []. split; [now rewrite app_nil_r | constructor].
Qed.

(** *** Listener ids *)

Lemma int_wrap_in_range (z : Z) :
  - 2147483648 <= z <= 2147483647 -> int_wrap z = z.
Proof.
  intros H. unfold int_wrap.
  rewrite Z.mod_small by lia. lia.
Qed.

(** [CreateServer] either leaves the listeners and the counter alone, or
    stores a new server under the counter and increments it. *)
Lemma CreateServer_servers (info : list JsValue) (wsa_ok : bool)
    (os : SocketOutcome) (g : Globals) :
  let r := CreateServer info wsa_ok os g in
  (g_servers (snd r) = g_servers g
   /\ g_nextServerId (snd r) = g_nextServerId g
   /\ (forall v, fst r <> Returned v))
  \/ (exists srv,
        g_servers (snd r) = <[g_nextServerId g := srv]> (g_servers g)
        /\ g_nextServerId (snd r) = int_wrap (g_nextServerId g + 1)
        /\ fst r = Returned (JsNumber (g_nextServerId g))).
Proof.
  unfold CreateServer.
  destruct info as [|[| |b|port|u|f] [|[| |b'|n'|u'|fn] rest]];
    try (left; cbn; split_and!; [reflexivity..|discriminate]).
  destruct wsa_ok; cbn [Initialize];
    [|left; cbn; split_and!; [reflexivity..|discriminate]].
  destruct os; cbn [StartServer];
    try (left; cbn; split_and!; [reflexivity..|discriminate]).
  right. eexists. cbn. split_and!; reflexivity.
Qed.

Lemma StopServer_servers (info : list JsValue) (g : Globals) :
  let g' := snd (StopServer info g) in
  g_nextServerId g' = g_nextServerId g
  /\ forall id, is_Some (g_servers g' !! id) -> is_Some (g_servers g !! id).
Proof.
  unfold StopServer.
  destruct info as [|[| |b|serverId|u|f] rest]; cbn; auto.
  destruct (g_servers g !! serverId) eqn:Hlive; cbn; auto.
  split; [reflexivity|]. intros id.
  destruct (decide (serverId = id)) as [->|Hne].
  - rewrite lookup_delete_eq. intros [? [=]].
  - now rewrite lookup_delete_ne.
Qed.

Lemma creations_cons (s : Step) (l : list Step) :
  creations (s :: l) = creations [s] + creations l.
Proof. destruct s; cbn [creations]; lia. Qed.

Lemma creations_nonneg (l : list Step) : 0 <= creations l.
Proof.
  induction l as [|s l IH]; [reflexivity|].
  rewrite creations_cons. destruct s; cbn [creations]; lia.
Qed.

Lemma creations_app (l1 l2 : list Step) :
  creations (l1 ++ l2) = creations l1 + creations l2.
Proof.
  induction l1 as [|s l1 IH]; [reflexivity|].
  cbn [app]. rewrite (creations_cons s l1), creations_cons, IH. lia.
Qed.

(** One step keeps the ids below the counter, and keeps an id that is dead
    and below the counter dead, as long as the counter does not overflow. *)
Lemma step_ids_below (s : Step) (n : Z) (g : Globals) :
  ids_below n g ->
  n + creations [s] <= max_creations ->
  ids_below (n + creations [s]) (step s g)
  /\ forall id, g_servers g !! id = None -> id < g_nextServerId g ->
                g_servers (step s g) !! id = None
                /\ id < g_nextServerId (step s g).
Proof.
  unfold max_creations. intros [Hnext Hlive] Hbound.
  destruct s as [info wsa_ok os|info|serverId data|eventType ip port];
    cbn [step creations] in *.
  - destruct (CreateServer_servers info wsa_ok os g)
      as [(Hs & Hn & _)|(srv & Hs & Hn & _)]; cbv zeta in *.
    + split.
      * split; [lia|]. intros id. rewrite Hs, Hn. apply Hlive.
      * intros id Hdead Hlt. rewrite Hs, Hn. auto.
    + rewrite int_wrap_in_range in Hn by lia.
      split.
      * split; [lia|]. intros id. rewrite Hs, Hn.
        destruct (decide (g_nextServerId g = id)) as [<-|Hne].
        -- intros _. lia.
        -- rewrite lookup_insert_ne by exact Hne.
           intros H. apply Hlive in H. lia.
      * intros id Hdead Hlt. rewrite Hs, Hn.
        rewrite lookup_insert_ne by lia. split; [exact Hdead | lia].
  - destruct (StopServer_servers info g) as [Hn Hs]; cbv zeta in *.
    split.
    + split; [lia|]. intros id H. rewrite Hn. apply Hlive, Hs, H.
    + intros id Hdead Hlt. rewrite Hn. split; [|exact Hlt].
      destruct (g_servers (snd (StopServer info g)) !! id) eqn:Hl;
        [|reflexivity].
      assert (H : is_Some (g_servers g !! id)) by (apply Hs; eauto).
      rewrite Hdead in H. now destruct H.
  - destruct (connection_input_frame serverId data g)
      as (Hs & Hn & _); cbv zeta in *.
    split.
    + split; [lia|]. intros id H. rewrite Hn. apply Hlive, Hs, H.
    + intros id Hdead Hlt. rewrite Hn. split; [|exact Hlt].
      destruct (g_servers (connection_input serverId data g) !! id) eqn:Hl;
        [|reflexivity].
      assert (H : is_Some (g_servers g !! id)) by (apply Hs; eauto).
      rewrite Hdead in H. now destruct H.
  - unfold EmitConnectionEvent, post.
    destruct (g_eventCallback g); cbn;
      (split; [split; [cbn; lia | exact Hlive] | auto]).
Qed.

Lemma steps_ids_below (l : list Step) :
  forall n g,
    ids_below n g ->
    n + creations l <= max_creations ->
    ids_below (n + creations l) (steps l g)
    /\ forall id, g_servers g !! id = None -> id < g_nextServerId g ->
                  g_servers (steps l g) !! id = None.
Proof.
  induction l as [|s l IH]; intros n g Hinv Hbound.
  - cbn. rewrite Z.add_0_r. auto.
  - rewrite creations_cons in *.
    pose proof (creations_nonneg l) as Hl.
    destruct (step_ids_below s n g Hinv ltac:(lia)) as [Hinv' Hdead'].
    destruct (IH _ _ Hinv' ltac:(lia)) as [Hinv'' Hdead''].
    change (steps (s :: l) g) with (steps l (step s g)).
    rewrite Z.add_assoc. split; [exact Hinv''|].
    intros id Hdead Hlt.
    destruct (Hdead' id Hdead Hlt) as [H1 H2]. auto.
Qed.

Lemma initial_ids_below : ids_below 0 initial.
Proof.
  split; [cbn; lia|]. intros id [srv H]. cbn in H.
  rewrite lookup_empty in H. discriminate.
Qed.

(** C7.  [ButtonState] looks the name up as it is and, when that fails, with
    [" Press"] appended; a name found only in the second way answers for the
    code of the appended name, in both call shapes; a name that fails both
    lookups answers [false].  ["C1"] is not a key, ["C1 Press"] is the key
    of 34, so ["C1"] answers as ["C1 Press"] does. *)
Theorem C7_name_lookup_falls_back_to_press (name : string)
    (serverId : Z) (g : Globals) :
  (forall code,
      g_nameToCode !! name = None ->
      g_nameToCode !! (String.append name " Press") = Some code ->
      name_to_code name = Some code
      /\ ButtonState [JsString name] g
         = Returned (JsBoolean
                       (existsb (fun kv => IsButtonHeld code (snd kv))
                                (map_to_list (g_servers g))))
      /\ ButtonState [JsNumber serverId; JsString name] g
         = Returned (JsBoolean
                       (match g_servers g !! serverId with
                        | Some srv => IsButtonHeld code srv
                        | None => false
                        end)))
  /\ (g_nameToCode !! name = None ->
      g_nameToCode !! (String.append name " Press") = None ->
      name_to_code name = None
      /\ ButtonState [JsString name] g = Returned (JsBoolean false)
      /\ ButtonState [JsNumber serverId; JsString name] g
         = Returned (JsBoolean false))
  /\ (g_nameToCode !! "C1" = None
      /\ g_nameToCode !! "C1 Press" = Some 34
      /\ name_to_code "C1" = Some 34
      /\ ButtonState [JsString "C1"] g = ButtonState [JsString "C1 Press"] g
      /\ ButtonState [JsNumber serverId; JsString "C1"] g
         = ButtonState [JsNumber serverId; JsString "C1 Press"] g).
Proof.
  split; [|split].
  - intros code Hexact Halt.
    unfold ButtonState, button_state_of, name_to_code.
    rewrite Hexact, Halt. auto.
  - intros Hexact Halt.
    unfold ButtonState, button_state_of, name_to_code.
    rewrite Hexact, Halt. auto.
  - split_and!; reflexivity.
Qed.

Lemma C7_witness :
  let g := connection_input 1 (chunk [34])
             (snd (CreateServer [JsNumber 50500; JsFunction 1] true
                     (Listening 3) initial)) in
  (name_to_code "C2" = Some 35
   /\ ButtonState [JsString "C2"] g
      = Returned (JsBoolean
                    (existsb (fun kv => IsButtonHeld 35 (snd kv))
                             (map_to_list (g_servers g))))
   /\ ButtonState [JsNumber 1; JsString "C2"] g
      = Returned (JsBoolean
                    (match g_servers g !! 1 with
                     | Some srv => IsButtonHeld 35 srv
                     | None => false
                     end)))
  /\ (name_to_code "C3" = None
      /\ ButtonState [JsString "C3"] g = Returned (JsBoolean false)
      /\ ButtonState [JsNumber 1; JsString "C3"] g
         = Returned (JsBoolean false)).
Proof.
  split.
  - exact (proj1 (C7_name_lookup_falls_back_to_press "C2" 1 _)
             35 eq_refl eq_refl).
  - exact (proj1 (proj2 (C7_name_lookup_falls_back_to_press "C3" 1 _))
             eq_refl eq_refl).
Defined.

(** * Further properties of the code *)

(** ** The registry accessors *)

(** X1.  [IsButtonHeld] after [SetButtonHeld] on the same code answers what
    was written; the answer for any other code is untouched; a second write
    to a code replaces the first; a code that was never written, as every
    code of a new server, answers [false]. *)
Theorem X1_registry_write_then_read
    (code other : Z) (held held' : bool) (s : TourBoxServerWrapper) :
  IsButtonHeld code (SetButtonHeld code held s) = held
  /\ (other <> code ->
      IsButtonHeld other (SetButtonHeld code held s) = IsButtonHeld other s)
  /\ SetButtonHeld code held' (SetButtonHeld code held s)
     = SetButtonHeld code held' s
  /\ IsButtonHeld code new_server = false
  /\ (buttonStates s !! code = None -> IsButtonHeld code s = false).
Proof.
  unfold IsButtonHeld, SetButtonHeld. cbn. split_and!.
  - now rewrite lookup_insert_eq.
  - intros Hne. now rewrite lookup_insert_ne.
  - now rewrite insert_insert_eq.
  - now rewrite lookup_empty.
  - now intros ->.
Qed.

Lemma X1_witness :
  IsButtonHeld 16 (SetButtonHeld 34 true new_server)
  = IsButtonHeld 16 new_server
  /\ IsButtonHeld 34 new_server = false.
Proof.
  split.
  - refine (proj1 (proj2 (X1_registry_write_then_read 34 16 true false
                            new_server)) _).
    discriminate.
  - exact (proj2 (proj2 (proj2 (proj2
             (X1_registry_write_then_read 34 16 true false new_server))))
             eq_refl).
Defined.

(** ** What one group does to the server object *)

(** The server a decoder leaves behind after one group. *)
Lemma handle_server (v c : Z) (srv : TourBoxServerWrapper) (tr : list Call) :
  server (handleTourBoxInput v c (mkState (Some srv) tr))
  = Some (match StdMap.find v controlMap with
          | None => srv
          | Some act =>
              if isPress act then SetButtonHeld v true srv
              else if negb (pressCodeToClear v controlMap =? -1)
                      && IsButtonHeld (pressCodeToClear v controlMap) srv
                   then SetButtonHeld (pressCodeToClear v controlMap) false srv
                   else srv
          end).
Proof.
  unfold handleTourBoxInput.
  destruct (StdMap.find v controlMap) as [act|]; [|reflexivity].
  cbv zeta. cbn [server].
  generalize (pressCodeToClear v controlMap). intros q.
  destruct (isPress act), (action act);
    try destruct (negb (q =? -1) && IsButtonHeld q srv); reflexivity.
Qed.

Lemma release_row_of_press (p : Z) (cp : ControlAction) :
  StdMap.find p controlMap = Some cp -> isPress cp = true ->
  exists row, StdMap.find (releaseCode cp) controlMap = Some row
              /\ isPress row = false.
Proof.
  intros Hfind Hpress.
  pose proof (controlMap_check
                (fun _ c =>
                   implb (isPress c)
                     (match StdMap.find (releaseCode c) controlMap with
                      | Some r => negb (isPress r)
                      | None => false
                      end))
                eq_refl p cp Hfind) as Hrow.
  cbv beta in Hrow. rewrite Hpress in Hrow. cbn [implb] in Hrow.
  destruct (StdMap.find (releaseCode cp) controlMap) as [r|]; [|discriminate].
  exists r. split; [reflexivity|]. now apply negb_true_iff.
Qed.

(** The held flag of a press code after one group. *)
Lemma handle_held_flag (p : Z) (cp : ControlAction) (v c : Z)
    (srv : TourBoxServerWrapper) (tr : list Call) :
  StdMap.find p controlMap = Some cp -> isPress cp = true ->
  exists srv',
    server (handleTourBoxInput v c (mkState (Some srv) tr)) = Some srv'
    /\ IsButtonHeld p srv'
       = if v =? p then true
         else if v =? releaseCode cp then false
         else IsButtonHeld p srv.
Proof.
  intros Hp Hpress.
  destruct (release_row_of_press p cp Hp Hpress) as (row & Hrow & Hrowp).
  destruct (pressCodeToClear_complete p cp Hp Hpress) as [Hloop Hp1].
  eexists. split; [apply handle_server|].
  destruct (Z.eqb_spec v p) as [->|Hvp].
  { rewrite Hp, Hpress.
    unfold IsButtonHeld, SetButtonHeld. cbn. now rewrite lookup_insert_eq. }
  destruct (Z.eqb_spec v (releaseCode cp)) as [->|Hvr].
  { rewrite Hrow, Hrowp, Hloop.
    apply Z.eqb_neq in Hp1. rewrite Hp1. cbn [negb andb].
    destruct (IsButtonHeld p srv) eqn:Hheld; [|exact Hheld].
    unfold IsButtonHeld, SetButtonHeld. cbn. now rewrite lookup_insert_eq. }
  destruct (StdMap.find v controlMap) as [act|] eqn:Hv; [|reflexivity].
  destruct (isPress act) eqn:Hact.
  { unfold IsButtonHeld, SetButtonHeld. cbn.
    now rewrite lookup_insert_ne by exact Hvp. }
  destruct (Z.eqb_spec (pressCodeToClear v controlMap) (-1)) as [_|Hq];
    [reflexivity|].
  cbn [negb andb].
  destruct (IsButtonHeld (pressCodeToClear v controlMap) srv); [|reflexivity].
  destruct (pressCodeToClear_sound v controlMap Hq) as (cq & Hin & _ & Hrel).
  apply controlMap_In_find in Hin.
  assert (Hne : pressCodeToClear v controlMap <> p).
  { intros Heq. rewrite Heq, Hp in Hin. injection Hin as <-. congruence. }
  unfold IsButtonHeld, SetButtonHeld. cbn.
  now rewrite lookup_insert_ne by exact Hne.
Qed.

Lemma handle_groups_held_flag (p : Z) (cp : ControlAction)
    (groups : list (Z * Z)) :
  StdMap.find p controlMap = Some cp -> isPress cp = true ->
  forall srv tr,
  exists srv',
    server (handle_groups groups (mkState (Some srv) tr)) = Some srv'
    /\ IsButtonHeld p srv'
       = held_after p (releaseCode cp) groups (IsButtonHeld p srv).
Proof.
  intros Hp Hpress.
  induction groups as [|[v c] groups IH]; intros srv tr.
  - exists srv. split; reflexivity.
  - unfold handle_groups, held_after. cbn [fold_left fst snd].
    destruct (handle_held_flag p cp v c srv tr Hp Hpress) as (s1 & Hs1 & Hf1).
    destruct (handleTourBoxInput v c (mkState (Some srv) tr)) as [o1 t1].
    cbn [server] in Hs1. subst o1.
    destruct (IH s1 t1) as (s2 & Hs2 & Hf2).
    exists s2. split; [exact Hs2|].
    rewrite Hf2, Hf1. reflexivity.
Qed.

(** X2.  The held flag of a press code after a chunk depends on the flag
    before and on the chunk's groups only: a group of the press code sets
    it, a group of its release code clears it, every other group leaves it.
    So it is the flag of the last such group, however often the press was
    repeated and whatever else was decoded in between. *)
Theorem X2_held_flag_follows_last_group (p : Z) (cp : ControlAction)
    (buffer : list byte) (srv : TourBoxServerWrapper) (tr : list Call) :
  StdMap.find p controlMap = Some cp -> isPress cp = true ->
  exists srv',
    server (processData buffer (mkState (Some srv) tr)) = Some srv'
    /\ IsButtonHeld p srv'
       = held_after p (releaseCode cp)
           (runs (List.map unsigned_char buffer)) (IsButtonHeld p srv).
Proof.
  intros Hp Hpress. rewrite processData_runs.
  apply (handle_groups_held_flag p cp _ Hp Hpress).
Qed.

Lemma X2_witness :
  exists srv',
    server (processData (chunk [34; 34; 16; 162; 99; 34])
              (mkState (Some new_server) [])) = Some srv'
    /\ IsButtonHeld 34 srv'
       = held_after 34 162
           (runs (List.map unsigned_char (chunk [34; 34; 16; 162; 99; 34])))
           (IsButtonHeld 34 new_server).
Proof.
  exact (X2_held_flag_follows_last_group 34
           (mkControlAction "C1 Press" true 162 (Some "C1 Press"))
           (chunk [34; 34; 16; 162; 99; 34]) new_server []
           eq_refl eq_refl).
Defined.

(** ** Invariants of the server object along a connection *)

Section ServerInvariant.
Variable P : TourBoxServerWrapper -> Prop.
Hypothesis P_handle :
  forall v c srv tr, P srv ->
    exists srv',
      server (handleTourBoxInput v c (mkState (Some srv) tr)) = Some srv'
      /\ P srv'.

Lemma handle_groups_invariant (groups : list (Z * Z)) :
  forall srv tr, P srv ->
    exists srv',
      server (handle_groups groups (mkState (Some srv) tr)) = Some srv'
      /\ P srv'.
Proof.
  induction groups as [|[v c] groups IH]; intros srv tr HP.
  - exists srv. auto.
  - unfold handle_groups. cbn [fold_left fst snd].
    destruct (P_handle v c srv tr HP) as (s1 & Hs1 & HP1).
    destruct (handleTourBoxInput v c (mkState (Some srv) tr)) as [o1 t1].
    cbn [server] in Hs1. subst o1. apply (IH s1 t1 HP1).
Qed.

Lemma processData_invariant (buffer : list byte) :
  forall srv tr, P srv ->
    exists srv',
      server (processData buffer (mkState (Some srv) tr)) = Some srv'
      /\ P srv'.
Proof.
  intros srv tr HP. rewrite processData_runs.
  apply handle_groups_invariant, HP.
Qed.

Lemma Run_invariant (recvs : list RecvResult) :
  forall srv tr, P srv ->
    exists srv',
      server (Run recvs (mkState (Some srv) tr)) = Some srv' /\ P srv'.
Proof.
  induction recvs as [|[[|b bs]|] recvs IH]; intros srv tr HP;
    try (exists srv; auto; fail).
  cbn [Run].
  destruct (processData_invariant (b :: bs) srv tr HP) as (s1 & Hs1 & HP1).
  destruct (processData (b :: bs) (mkState (Some srv) tr)) as [o1 t1].
  cbn [server] in Hs1. subst o1. apply (IH s1 t1 HP1).
Qed.
End ServerInvariant.

Lemma press_keys_write (code : Z) (held : bool) (srv : TourBoxServerWrapper) :
  press_keys_only srv -> is_press_code code = true ->
  press_keys_only (SetButtonHeld code held srv).
Proof.
  intros Hkeys Hcode code' Hsome. cbn in Hsome.
  destruct (decide (code = code')) as [<-|Hne]; [exact Hcode|].
  rewrite lookup_insert_ne in Hsome by exact Hne. now apply Hkeys.
Qed.

Lemma handle_press_keys (v c : Z) (srv : TourBoxServerWrapper)
    (tr : list Call) :
  press_keys_only srv ->
  exists srv',
    server (handleTourBoxInput v c (mkState (Some srv) tr)) = Some srv'
    /\ press_keys_only srv'.
Proof.
  intros Hkeys. eexists. split; [apply handle_server|].
  destruct (StdMap.find v controlMap) as [act|] eqn:Hv; [|exact Hkeys].
  destruct (isPress act) eqn:Hact.
  - apply press_keys_write; [exact Hkeys|].
    unfold is_press_code. now rewrite Hv.
  - destruct (Z.eqb_spec (pressCodeToClear v controlMap) (-1)) as [_|Hq];
      [exact Hkeys|].
    cbn [negb andb].
    destruct (IsButtonHeld (pressCodeToClear v controlMap) srv);
      [|exact Hkeys].
    destruct (pressCodeToClear_sound v controlMap Hq) as (cq & Hin & Hcq & _).
    apply controlMap_In_find in Hin.
    apply press_keys_write; [exact Hkeys|].
    unfold is_press_code. now rewrite Hin.
Qed.

Lemma press_keys_not_held (code : Z) (srv : TourBoxServerWrapper) :
  press_keys_only srv -> is_press_code code = false ->
  IsButtonHeld code srv = false.
Proof.
  intros Hkeys Hcode. unfold IsButtonHeld.
  destruct (buttonStates srv !! code) as [held|] eqn:Hl; [|reflexivity].
  rewrite Hkeys in Hcode by eauto. discriminate.
Qed.

(** X3.  A connection writes the registry under press codes only: if every
    key of the registry is the code of a press row when the receive loop
    starts, so it is when the loop ends, whatever was received; and then no
    release code, rotation code or unknown value is reported held. *)
Theorem X3_registry_keys_are_press_codes
    (recvs : list RecvResult) (srv : TourBoxServerWrapper) (tr : list Call) :
  press_keys_only srv ->
  exists srv',
    server (Run recvs (mkState (Some srv) tr)) = Some srv'
    /\ press_keys_only srv'
    /\ forall code, is_press_code code = false ->
                    IsButtonHeld code srv' = false.
Proof.
  intros Hkeys.
  destruct (Run_invariant press_keys_only handle_press_keys recvs srv tr Hkeys)
    as (srv' & Hs & Hk).
  exists srv'. split_and!; auto.
  intros code Hcode. now apply press_keys_not_held.
Qed.

Lemma new_server_press_keys : press_keys_only new_server.
Proof.
  intros code [held H]. cbn in H. rewrite lookup_empty in H. discriminate.
Qed.

Lemma X3_witness :
  exists srv',
    server (Run [RecvBytes (chunk [162; 34; 132]); RecvBytes (chunk [183])]
              (mkState (Some new_server) [])) = Some srv'
    /\ press_keys_only srv'
    /\ forall code, is_press_code code = false ->
                    IsButtonHeld code srv' = false.
Proof.
  exact (X3_registry_keys_are_press_codes
           [RecvBytes (chunk [162; 34; 132]); RecvBytes (chunk [183])]
           new_server [] new_server_press_keys).
Defined.

(** ** The events of a chunk *)

Lemma emitted_handle (v c : Z) (st : State) :
  emitted (trace (handleTourBoxInput v c st))
  = emitted (trace st)
    ++ match event_of_group (v, c) with Some e => [e] | None => [] end.
Proof.
  unfold handleTourBoxInput, event_of_group. cbn [fst snd].
  destruct (StdMap.find v controlMap) as [act|]; [|now rewrite app_nil_r].
  cbv zeta. generalize (pressCodeToClear v controlMap). intros q.
  destruct st as [[srv|] tr]; cbn [server];
    destruct (isPress act), (action act);
    try destruct (negb (q =? -1) && IsButtonHeld q srv);
    unfold call_EmitToNode, call_SetButtonHeld; cbn [trace server];
    rewrite ?emitted_app; cbn [emitted]; rewrite ?app_nil_r; reflexivity.
Qed.

Lemma emitted_handle_groups (groups : list (Z * Z)) :
  forall st,
    emitted (trace (handle_groups groups st))
    = emitted (trace st) ++ events_of groups.
Proof.
  induction groups as [|[v c] groups IH]; intros st.
  - cbn. now rewrite app_nil_r.
  - unfold handle_groups. cbn [fold_left fst snd].
    fold (handle_groups groups (handleTourBoxInput v c st)).
    rewrite IH, emitted_handle. cbn [events_of].
    destruct (event_of_group (v, c)); cbn; [|now rewrite app_nil_r].
    now rewrite <- app_assoc.
Qed.

Lemma events_of_rows (groups : list (Z * Z)) :
  Forall (fun vc => 1 <= snd vc) groups ->
  Forall (fun e => exists code ca,
                     StdMap.find code controlMap = Some ca
                     /\ fst e = name ca /\ 1 <= snd e)
         (events_of groups).
Proof.
  induction 1 as [|[v c] groups Hc _ IH]; cbn [events_of]; [constructor|].
  unfold event_of_group. cbn [fst snd] in *.
  destruct (StdMap.find v controlMap) as [act|] eqn:Hv; [|exact IH].
  rewrite (action_is_name _ _ Hv). constructor; [|exact IH].
  exists v, act. auto.
Qed.

Lemma emitted_processData (buffer : list byte) (st : State) :
  emitted (trace (processData buffer st))
  = emitted (trace st) ++ events_of (runs (List.map unsigned_char buffer)).
Proof.
  rewrite processData_runs, emitted_handle_groups.
  unfold call_EmitRawData. cbn [trace].
  rewrite emitted_app. cbn [emitted]. now rewrite app_nil_r.
Qed.

(** X4.  The events a chunk adds are a function of its bytes alone: they are
    the events of its maximal runs, in order, one per run whose byte has a
    row, each with that row's name and the run's length (at least 1).
    Neither the registry nor the presence of a server changes them. *)
Theorem X4_events_depend_on_bytes_only (buffer : list byte) (st : State) :
  emitted (trace (processData buffer st))
  = emitted (trace st) ++ events_of (runs (List.map unsigned_char buffer))
  /\ Forall (fun e => exists code ca,
                        StdMap.find code controlMap = Some ca
                        /\ fst e = name ca /\ 1 <= snd e)
            (events_of (runs (List.map unsigned_char buffer))).
Proof.
  split.
  - apply emitted_processData.
  - apply events_of_rows, runs_positive.
Qed.

Lemma sum_counts_app (es1 es2 : list (string * Z)) :
  sum_counts (es1 ++ es2) = sum_counts es1 + sum_counts es2.
Proof.
  induction es1 as [|e es1 IH]; cbn [sum_counts app]; lia.
Qed.

Lemma sum_counts_events_cons (v c : Z) (groups : list (Z * Z)) :
  sum_counts (events_of ((v, c) :: groups))
  = match StdMap.find v controlMap with Some _ => c | None => 0 end
    + sum_counts (events_of groups).
Proof.
  cbn [events_of]. unfold event_of_group. cbn [fst snd].
  destruct (StdMap.find v controlMap) as [act|] eqn:Hv; [|reflexivity].
  now rewrite (action_is_name _ _ Hv).
Qed.

Lemma sum_counts_runs (l : list Z) :
  sum_counts (events_of (runs l)) = count_known l.
Proof.
  induction l as [|x l IH]; [reflexivity|].
  cbn [runs count_known].
  destruct (runs l) as [|[y k] g].
  - rewrite sum_counts_events_cons. cbn in IH.
    destruct (StdMap.find x controlMap); cbn; lia.
  - rewrite sum_counts_events_cons in IH.
    destruct (Z.eqb_spec x y) as [->|Hne].
    + rewrite sum_counts_events_cons.
      destruct (StdMap.find y controlMap); lia.
    + rewrite !sum_counts_events_cons.
      destruct (StdMap.find x controlMap); lia.
Qed.

Lemma count_known_le_length (l : list Z) :
  0 <= count_known l <= Z.of_nat (length l).
Proof.
  induction l as [|x l IH]; cbn [count_known length]; [lia|].
  destruct (StdMap.find x controlMap); lia.
Qed.

(** X5.  The counts of the events of a chunk add up to the number of its
    bytes that have a row in the table: no known byte is lost or counted
    twice by the grouping, and unknown bytes count for nothing.  The sum is
    never more than the length of the chunk. *)
Theorem X5_event_counts_add_up (buffer : list byte) (st : State) :
  sum_counts (emitted (trace (processData buffer st)))
  = sum_counts (emitted (trace st))
    + count_known (List.map unsigned_char buffer)
  /\ 0 <= count_known (List.map unsigned_char buffer)
       <= Z.of_nat (length buffer).
Proof.
  split.
  - now rewrite emitted_processData, sum_counts_app, sum_counts_runs.
  - rewrite <- (length_map unsigned_char buffer).
    apply count_known_le_length.
Qed.

(** ** Raw data and the receive loop *)

Lemma raw_calls_app (t1 t2 : list Call) :
  raw_calls (t1 ++ t2) = raw_calls t1 ++ raw_calls t2.
Proof.
  induction t1 as [|[d|c h|n c] t1 IH]; simpl; congruence.
Qed.

(** A group only appends to the trace, and never a raw buffer. *)
Lemma handle_appends (v c : Z) (st : State) :
  exists more,
    trace (handleTourBoxInput v c st) = trace st ++ more
    /\ raw_calls more = [].
Proof.
  unfold handleTourBoxInput.
  destruct (StdMap.find v controlMap) as [act|];
    [|exists []; split; [now rewrite app_nil_r | reflexivity]].
  cbv zeta. generalize (pressCodeToClear v controlMap). intros q.
  destruct st as [[srv|] tr]; cbn [server];
    destruct (isPress act), (action act);
    try destruct (negb (q =? -1) && IsButtonHeld q srv);
    unfold call_EmitToNode, call_SetButtonHeld; cbn [trace server];
    rewrite <- ?app_assoc;
    (eexists; split; [reflexivity | reflexivity])
    || (exists []; split; [now rewrite app_nil_r | reflexivity]).
Qed.

Lemma handle_groups_appends (groups : list (Z * Z)) :
  forall st,
    exists more,
      trace (handle_groups groups st) = trace st ++ more
      /\ raw_calls more = [].
Proof.
  induction groups as [|[v c] groups IH]; intros st.
  - exists []. split; [cbn; now rewrite app_nil_r | reflexivity].
  - unfold handle_groups. cbn [fold_left fst snd].
    fold (handle_groups groups (handleTourBoxInput v c st)).
    destruct (IH (handleTourBoxInput v c st)) as (m2 & H2 & R2).
    destruct (handle_appends v c st) as (m1 & H1 & R1).
    exists (m1 ++ m2). split.
    + rewrite H2, H1. now rewrite app_assoc.
    + rewrite raw_calls_app, R1, R2. reflexivity.
Qed.

Lemma processData_appends (buffer : list byte) (st : State) :
  exists more,
    trace (processData buffer st)
    = trace st ++ CallEmitRawData buffer :: more
    /\ raw_calls more = [].
Proof.
  rewrite processData_runs.
  destruct (handle_groups_appends (runs (List.map unsigned_char buffer))
              (call_EmitRawData buffer st)) as (more & H & R).
  exists more. split; [|exact R].
  rewrite H. unfold call_EmitRawData. cbn [trace].
  now rewrite <- app_assoc.
Qed.

(** X6.  Every chunk is handed to [EmitRawData] as received, before any of
    its groups is handled, and nothing else of the chunk goes there: the
    trace only grows, by the raw call followed by calls that are not raw
    calls.  Over a connection the raw buffers are exactly the chunks
    received, in order. *)
Theorem X6_raw_data_first_and_once :
  (forall (buffer : list byte) (st : State),
      exists more,
        trace (processData buffer st)
        = trace st ++ CallEmitRawData buffer :: more
        /\ raw_calls more = [])
  /\ (forall (chunks : list (byte * list byte)) (st : State),
         raw_calls
           (trace (Run (List.map (fun c => RecvBytes (fst c :: snd c)) chunks)
                     st))
         = raw_calls (trace st)
           ++ List.map (fun c => fst c :: snd c) chunks).
Proof.
  split; [exact processData_appends|].
  intros chunks st. rewrite Run_chunks. revert st.
  induction chunks as [|c chunks IH]; intros st.
  - cbn. now rewrite app_nil_r.
  - cbn [fold_left List.map]. rewrite IH.
    destruct (processData_appends (fst c :: snd c) st) as (more & H & R).
    rewrite H, raw_calls_app. cbn [raw_calls]. rewrite R.
    now rewrite <- app_assoc.
Qed.

(** X7.  The receive loop ends at the first answer of [recv] that is an
    error or carries no byte (the peer closed): the chunks before it are
    processed, nothing after it is, even if more bytes would follow. *)
Theorem X7_receive_loop_ends_at_close_or_error
    (chunks : list (byte * list byte)) (later : list RecvResult) (st : State) :
  Run (List.map (fun c => RecvBytes (fst c :: snd c)) chunks
         ++ RecvBytes [] :: later) st
  = fold_left (fun s c => processData (fst c :: snd c) s) chunks st
  /\ Run (List.map (fun c => RecvBytes (fst c :: snd c)) chunks
           ++ RecvError :: later) st
     = fold_left (fun s c => processData (fst c :: snd c) s) chunks st.
Proof.
  revert st. induction chunks as [|[b bs] chunks IH]; intros st.
  - split; reflexivity.
  - cbn [List.map app Run fold_left fst snd]. apply IH.
Qed.

(** ** The conversion loop on arbitrary strings *)

(** X8.  [parseTourBoxData] is all or nothing: when one two-character piece
    of the string does not convert, the exception leaves before any group is
    handled, also the groups of the pieces in front of it, and the state is
    as before.  A single character left over at the end of the string is
    skipped. *)
Theorem X8_bad_piece_discards_whole_string
    (ps : list (ascii * ascii)) (c1 c2 : ascii) (rest : string) (st : State) :
  stoi16 (String c1 (String c2 "")) = None ->
  hex_to_bytes (pairs_to_string ps (String c1 (String c2 rest))) = None
  /\ parseTourBoxData (pairs_to_string ps (String c1 (String c2 rest))) st = st
  /\ (forall c, hex_to_bytes (pairs_to_string ps (String c ""))
                = hex_to_bytes (pairs_to_string ps "")).
Proof.
  intros Hbad.
  assert (Hnone : hex_to_bytes
                    (pairs_to_string ps (String c1 (String c2 rest))) = None).
  { induction ps as [|[a b] ps IH]; cbn [pairs_to_string hex_to_bytes].
    - now rewrite Hbad.
    - rewrite IH. now destruct (stoi16 (String a (String b ""))). }
  split; [exact Hnone|]. split.
  - unfold parseTourBoxData. now rewrite Hnone.
  - intros c. clear Hnone. induction ps as [|[a b] ps IH];
      cbn [pairs_to_string hex_to_bytes]; [reflexivity|].
    now rewrite IH.
Qed.

Lemma X8_witness :
  hex_to_bytes "22zz84" = None
  /\ parseTourBoxData "22zz84" (mkState (Some new_server) [])
     = mkState (Some new_server) []
  /\ (forall c, hex_to_bytes (String "2" (String "2" (String c "")))
                = hex_to_bytes "22").
Proof.
  exact (X8_bad_piece_discards_whole_string
           [("2"%char, "2"%char)] "z"%char "z"%char "84"
           (mkState (Some new_server) []) eq_refl).
Defined.

(** ** The two name tables *)

Lemma name_table_forward (code : Z) (ca : ControlAction) :
  StdMap.find code controlMap = Some ca ->
  g_nameToCode !! name ca = Some code.
Proof.
  intros H.
  apply (controlMap_check
           (fun k c => bool_decide (g_nameToCode !! name c = Some k))) in H.
  - now apply bool_decide_eq_true in H.
  - vm_compute. reflexivity.
Qed.

Lemma name_table_backward (n : string) (code : Z) :
  g_nameToCode !! n = Some code ->
  exists ca, StdMap.find code controlMap = Some ca
             /\ name ca = n
             /\ code_of_name n controlMap = Some code.
Proof.
  intros H. unfold g_nameToCode in H.
  apply elem_of_list_to_map_2 in H.
  repeat (apply elem_of_cons in H as [H|H];
          [injection H as -> ->; eexists; split_and!; reflexivity|]).
  now apply elem_of_nil in H.
Qed.

Lemma code_of_name_sound (n : string) (m : list (Z * ControlAction)) (c : Z) :
  code_of_name n m = Some c -> exists ca, In (c, ca) m /\ name ca = n.
Proof.
  induction m as [|[code ca] m IH]; cbn [code_of_name]; [discriminate|].
  destruct (String.eqb_spec (name ca) n) as [Heq|_].
  - intros [= ->]. exists ca. split; [now left | exact Heq].
  - intros H. destruct (IH H) as (ca' & Hin & Hn). exists ca'.
    split; [now right | exact Hn].
Qed.

Lemma code_of_name_table (n : string) :
  code_of_name n controlMap = g_nameToCode !! n.
Proof.
  destruct (g_nameToCode !! n) as [code|] eqn:Hn.
  - now destruct (name_table_backward n code Hn) as (ca & _ & _ & H).
  - destruct (code_of_name n controlMap) as [c|] eqn:Hc; [|reflexivity].
    destruct (code_of_name_sound n controlMap c Hc) as (ca & Hin & <-).
    apply controlMap_In_find, name_table_forward in Hin. congruence.
Qed.

(** X9.  The table of the addon and the table of the client agree, as the
    comment on [g_nameToCode] asks: a name maps to a code in the first
    exactly when the row of that code in the second carries that name.  So
    the names of the rows are pairwise different and the two tables have
    the same 34 entries. *)
Theorem X9_name_tables_agree (n : string) (code : Z) :
  g_nameToCode !! n = Some code
  <-> exists ca, StdMap.find code controlMap = Some ca /\ name ca = n.
Proof.
  split.
  - intros H. destruct (name_table_backward n code H) as (ca & ? & ? & _).
    eauto.
  - intros (ca & Hfind & <-). now apply name_table_forward.
Qed.

(** X10.  [isButtonHeld(name)] of the client answers for the exact name
    only: it is the held flag of the code the name has in [g_nameToCode],
    and [false] for any other string, for a null server, and for a short
    name such as ["C1"] that [ButtonState] would complete with
    [" Press"]. *)
Theorem X10_client_lookup_by_exact_name (buttonName : string) (st : State) :
  isButtonHeld_name buttonName st
  = match g_nameToCode !! buttonName with
    | Some code => isButtonHeld code st
    | None => false
    end
  /\ isButtonHeld_name buttonName (mkState None (trace st)) = false
  /\ isButtonHeld_name "C1" st = false.
Proof.
  unfold isButtonHeld_name. rewrite !code_of_name_table. split_and!.
  - reflexivity.
  - now destruct (g_nameToCode !! buttonName).
  - reflexivity.
Qed.

(** ** The host query *)

Lemma existsb_map_to_list {V : Type} (f : Z * V -> bool) (m : gmap Z V) :
  existsb f (map_to_list m) = true
  <-> exists k v, m !! k = Some v /\ f (k, v) = true.
Proof.
  rewrite existsb_exists. split.
  - intros ([k v] & Hin & Hf).
    apply list_elem_of_In, elem_of_map_to_list in Hin. eauto.
  - intros (k & v & Hl & Hf). exists (k, v). split; [|exact Hf].
    now apply list_elem_of_In, elem_of_map_to_list.
Qed.

Lemma button_state_any (name : string) (g : Globals) :
  button_state_of None name g = true
  <-> exists code id srv,
        name_to_code name = Some code
        /\ g_servers g !! id = Some srv
        /\ IsButtonHeld code srv = true.
Proof.
  unfold button_state_of.
  destruct (name_to_code name) as [code|].
  - rewrite existsb_map_to_list. split.
    + intros (id & srv & Hl & Hh). exists code, id, srv. auto.
    + intros (code' & id & srv & [= <-] & Hl & Hh). eauto.
  - split; [discriminate | intros (? & ? & ? & [=] & _)].
Qed.

(** X11.  [ButtonState(name)] with one argument answers [true] exactly when
    the name resolves to a code that some listener currently in [g_servers]
    reports held.  So it answers [true] whenever the two-argument form does
    for some id, and [false] when there is no listener. *)
Theorem X11_buttonState_any_listener (name : string) (g : Globals) :
  (ButtonState [JsString name] g = Returned (JsBoolean true)
   <-> exists code id srv,
         name_to_code name = Some code
         /\ g_servers g !! id = Some srv
         /\ IsButtonHeld code srv = true)
  /\ (forall id,
         ButtonState [JsNumber id; JsString name] g = Returned (JsBoolean true)
         -> ButtonState [JsString name] g = Returned (JsBoolean true))
  /\ (g_servers g = ∅ ->
      ButtonState [JsString name] g = Returned (JsBoolean false)).
Proof.
  cbn [ButtonState]. split_and!.
  - rewrite <- button_state_any. split; [now intros [= ->] | now intros ->].
  - intros id [= H]. f_equal. f_equal.
    apply button_state_any. unfold button_state_of in H.
    destruct (name_to_code name) as [code|]; [|discriminate].
    destruct (g_servers g !! id) as [srv|] eqn:Hl; [|discriminate].
    exists code, id, srv. auto.
  - intros Hnone. f_equal. f_equal.
    destruct (button_state_of None name g) eqn:Hb; [|reflexivity].
    apply button_state_any in Hb as (? & id & ? & _ & Hl & _).
    rewrite Hnone, lookup_empty in Hl. discriminate.
Qed.

Lemma X11_witness :
  let g := connection_input 2 (chunk [16])
             (steps [DoCreate [JsNumber 50500; JsFunction 1] true (Listening 3);
                     DoCreate [JsNumber 50501; JsFunction 2] true (Listening 4)]
                initial) in
  ButtonState [JsString "Up"] g = Returned (JsBoolean true)
  /\ ButtonState [JsString "Up"] initial = Returned (JsBoolean false).
Proof.
  intros g. split.
  - apply (proj1 (proj2 (X11_buttonState_any_listener "Up" g)) 2).
    vm_compute. reflexivity.
  - apply (proj2 (proj2 (X11_buttonState_any_listener "Up" initial))).
    reflexivity.
Defined.

(** X12.  The argument checks of the two functions that take no callback.
    [ButtonState] raises its type error exactly when the arguments are
    neither one string nor a number followed by a string (so also for a
    third argument).  [StopServer] raises its type error exactly when the
    first argument is missing or not a number, and then changes nothing;
    arguments after the first are ignored. *)
Theorem X12_argument_errors (info : list JsValue) (g : Globals) :
  ((exists message, ButtonState info g = ThrewTypeError message)
   <-> ~ ((exists n, info = [JsString n])
          \/ (exists id n, info = [JsNumber id; JsString n])))
  /\ ((exists message, fst (StopServer info g) = ThrewTypeError message)
      <-> ~ (exists id rest, info = JsNumber id :: rest))
  /\ ((forall id rest, info <> JsNumber id :: rest) ->
      snd (StopServer info g) = g)
  /\ (forall id rest,
         StopServer (JsNumber id :: rest) g = StopServer [JsNumber id] g).
Proof.
  split_and!.
  - split.
    + intros [m Hm] [[n ->]|(id & n & ->)]; discriminate.
    + intros Hshape.
      destruct info as [|[| |b|id|n|f] [|[| |b'|id'|n'|f'] [|a rest]]];
        cbn [ButtonState]; eauto;
        exfalso; apply Hshape; eauto.
  - split.
    + intros [m Hm] (id & rest & ->). cbn [StopServer] in Hm.
      destruct (g_servers g !! id); discriminate.
    + intros Hshape.
      destruct info as [|[| |b|id|n|f] rest]; cbn [StopServer fst]; eauto.
      exfalso. apply Hshape. eauto.
  - intros Hshape.
    destruct info as [|[| |b|id|n|f] rest]; cbn [StopServer snd]; auto.
    now destruct (Hshape id rest).
  - reflexivity.
Qed.

Lemma X12_witness :
  snd (StopServer [JsString "1"]
         (snd (CreateServer [JsNumber 50500; JsFunction 1] true
                 (Listening 3) initial)))
  = snd (CreateServer [JsNumber 50500; JsFunction 1] true
           (Listening 3) initial).
Proof.
  refine (proj1 (proj2 (proj2 (X12_argument_errors [JsString "1"] _))) _).
  intros id rest. discriminate.
Defined.

(** X13.  After [StopServer(id)] the two-argument query for that id answers
    [false] for every name, while the answers for every other id are what
    they were. *)
Theorem X13_stopped_listener_reports_nothing
    (id id' : Z) (rest : list JsValue) (name : string) (g : Globals) :
  let g' := snd (StopServer (JsNumber id :: rest) g) in
  ButtonState [JsNumber id; JsString name] g' = Returned (JsBoolean false)
  /\ (id' <> id ->
      ButtonState [JsNumber id'; JsString name] g'
      = ButtonState [JsNumber id'; JsString name] g).
Proof.
  cbn [StopServer ButtonState]. unfold button_state_of.
  destruct (g_servers g !! id) as [srv|] eqn:Hlive; cbn [snd g_servers].
  - split.
    + rewrite lookup_delete_eq. now destruct (name_to_code name).
    + intros Hne. now rewrite lookup_delete_ne.
  - split; [|reflexivity].
    rewrite Hlive. now destruct (name_to_code name).
Qed.

Lemma X13_witness :
  let g := connection_input 1 (chunk [34])
             (steps [DoCreate [JsNumber 50500; JsFunction 1] true (Listening 3);
                     DoCreate [JsNumber 50501; JsFunction 2] true (Listening 4)]
                initial) in
  ButtonState [JsNumber 1; JsString "C1"] (snd (StopServer [JsNumber 2] g))
  = ButtonState [JsNumber 1; JsString "C1"] g.
Proof.
  refine (proj2 (X13_stopped_listener_reports_nothing 2 1 [] "C1" _) _).
  discriminate.
Defined.

(** ** States the process can reach *)

Lemma steps_invariant (Q : Globals -> Prop) :
  (forall s g, Q g -> Q (step s g)) ->
  forall l g, Q g -> Q (steps l g).
Proof.
  intros Hstep l. induction l as [|s l IH]; intros g HQ; [exact HQ|].
  change (steps (s :: l) g) with (steps l (step s g)). auto.
Qed.

(** The two ways [CreateServer] can end. *)
Lemma CreateServer_cases (info : list JsValue) (wsa_ok : bool)
    (os : SocketOutcome) (g : Globals) :
  let r := CreateServer info wsa_ok os g in
  (g_servers (snd r) = g_servers g
   /\ g_nextServerId (snd r) = g_nextServerId g
   /\ (forall v, fst r <> Returned v)
   /\ (g_eventCallback (snd r) = g_eventCallback g
       \/ exists fn,
            g_eventCallback (snd r) = Some (mkTsfn fn "TourBoxEventCallback"))
   /\ (wsa_ok = false \/ (forall fd, os <> Listening fd)
       \/ create_args_ok info = false))
  \/ (exists fd fn,
        g_servers (snd r)
        = <[g_nextServerId g := mkServer (Some fd) true ∅]> (g_servers g)
        /\ g_nextServerId (snd r) = int_wrap (g_nextServerId g + 1)
        /\ fst r = Returned (JsNumber (g_nextServerId g))
        /\ g_eventCallback (snd r) = Some (mkTsfn fn "TourBoxEventCallback")
        /\ wsa_ok = true /\ os = Listening fd
        /\ create_args_ok info = true).
Proof.
  unfold CreateServer.
  destruct info as [|[| |b|port|u|f] [|[| |b'|n'|u'|fn] rest]];
    try (left; cbn; split_and!; [reflexivity..|discriminate|now left|auto]).
  destruct wsa_ok; cbn [Initialize];
    [|left; cbn; split_and!; [reflexivity..|discriminate|eauto|auto]].
  destruct os; cbn [StartServer];
    try (left; cbn; split_and!;
         [reflexivity..|discriminate|eauto|right; left; discriminate]).
  right. exists fd, fn. cbn. split_and!; reflexivity.
Qed.

Lemma connection_input_servers (serverId : Z) (data : list byte)
    (g : Globals) :
  g_servers (connection_input serverId data g)
  = match g_servers g !! serverId with
    | Some srv =>
        <[serverId :=
            match server (processData data (mkState (Some srv) [])) with
            | Some s => s
            | None => srv
            end]> (g_servers g)
    | None => g_servers g
    end.
Proof.
  unfold connection_input.
  destruct (g_servers g !! serverId) as [srv|]; [|reflexivity].
  match goal with
  | |- context [fold_left _ ?t ?g0] =>
      destruct (forward_all_frame t g0) as (Hs & _)
  end.
  exact Hs.
Qed.

Lemma step_registries_press_only (s : Step) (g : Globals) :
  registries_press_only g -> registries_press_only (step s g).
Proof.
  intros Hinv.
  destruct s as [info wsa_ok os|info|serverId data|eventType ip port];
    cbn [step].
  - destruct (CreateServer_cases info wsa_ok os g)
      as [(Hs & _)|(fd & fn & Hs & _)]; cbv zeta in *;
      intros id srv; rewrite Hs; [apply Hinv|].
    destruct (decide (g_nextServerId g = id)) as [<-|Hne].
    + rewrite lookup_insert_eq. intros [= <-].
      intros code [held H]. cbn in H. rewrite lookup_empty in H.
      discriminate.
    + rewrite lookup_insert_ne by exact Hne. apply Hinv.
  - destruct info as [|[| |b|serverId|u|f] rest]; cbn [StopServer snd];
      try exact Hinv.
    destruct (g_servers g !! serverId); cbn [snd]; [|exact Hinv].
    intros id srv. cbn [g_servers].
    destruct (decide (serverId = id)) as [<-|Hne].
    + rewrite lookup_delete_eq. discriminate.
    + rewrite lookup_delete_ne by exact Hne. apply Hinv.
  - intros id srv. rewrite connection_input_servers.
    destruct (g_servers g !! serverId) as [srv0|] eqn:Hlive; [|apply Hinv].
    destruct (decide (serverId = id)) as [<-|Hne].
    + rewrite lookup_insert_eq. intros [= <-].
      destruct (processData_invariant press_keys_only handle_press_keys
                  data srv0 [] (Hinv _ _ Hlive)) as (s1 & Hs1 & Hk).
      now rewrite Hs1.
    + rewrite lookup_insert_ne by exact Hne. apply Hinv.
  - unfold EmitConnectionEvent, post.
    destruct (g_eventCallback g); exact Hinv.
Qed.

Lemma initial_registries_press_only : registries_press_only initial.
Proof.
  intros id srv H. cbn in H. rewrite lookup_empty in H. discriminate.
Qed.

(** X14.  Whatever the host and the connections do from the start of the
    process, a name that resolves to a code without a press row (every
    release and every rotation) is never reported held, by either form of
    [ButtonState]: only press codes are ever written to a registry. *)
Theorem X14_only_press_controls_report_held
    (l : list Step) (name : string) (code id : Z) :
  name_to_code name = Some code ->
  is_press_code code = false ->
  ButtonState [JsString name] (steps l initial) = Returned (JsBoolean false)
  /\ ButtonState [JsNumber id; JsString name] (steps l initial)
     = Returned (JsBoolean false).
Proof.
  intros Hname Hcode.
  pose proof (steps_invariant registries_press_only
                step_registries_press_only l initial
                initial_registries_press_only) as Hinv.
  cbn [ButtonState]. split; f_equal; f_equal.
  - destruct (button_state_of None name (steps l initial)) eqn:Hb;
      [|reflexivity].
    apply button_state_any in Hb as (code' & id' & srv & Hn & Hl & Hh).
    rewrite Hname in Hn. injection Hn as <-.
    rewrite (press_keys_not_held code srv (Hinv _ _ Hl) Hcode) in Hh.
    discriminate.
  - unfold button_state_of. rewrite Hname.
    destruct (g_servers (steps l initial) !! id) as [srv|] eqn:Hl;
      [|reflexivity].
    exact (press_keys_not_held code srv (Hinv _ _ Hl) Hcode).
Qed.

Lemma X14_witness :
  let l := [DoCreate [JsNumber 50500; JsFunction 1] true (Listening 3);
            DoInput 1 (chunk [34; 162; 162; 196])] in
  ButtonState [JsString "C1 Release"] (steps l initial)
  = Returned (JsBoolean false)
  /\ ButtonState [JsNumber 1; JsString "C1 Release"] (steps l initial)
     = Returned (JsBoolean false).
Proof.
  exact (X14_only_press_controls_report_held
           [DoCreate [JsNumber 50500; JsFunction 1] true (Listening 3);
            DoInput 1 (chunk [34; 162; 162; 196])]
           "C1 Release" 162 1 eq_refl eq_refl).
Defined.

(** X15.  [CreateServer] and the listener ids.  When the platform set-up or
    the socket fails, no id is handed out: the listeners and the counter are
    as before and no number is returned.  In a state reached from the start
    of the process with room left in the counter, a successful call returns
    the counter, which is not the id of any listener, stores a running
    server with an empty registry under it, keeps every other listener as it
    was with a smaller id, and advances the counter by one; the new listener
    reports every name as not held. *)
Theorem X15_createServer_allocates_fresh_ids
    (l : list Step) (port : Z) (fn : nat) (rest : list JsValue)
    (wsa_ok : bool) (os : SocketOutcome) (fd : Z) :
  creations l < max_creations ->
  let g := steps l initial in
  let info := JsNumber port :: JsFunction fn :: rest in
  ((wsa_ok = false \/ (forall fd', os <> Listening fd')) ->
   g_servers (snd (CreateServer info wsa_ok os g)) = g_servers g
   /\ g_nextServerId (snd (CreateServer info wsa_ok os g)) = g_nextServerId g
   /\ forall v, fst (CreateServer info wsa_ok os g) <> Returned v)
  /\ (let r := CreateServer info true (Listening fd) g in
      fst r = Returned (JsNumber (g_nextServerId g))
      /\ g_servers g !! g_nextServerId g = None
      /\ g_servers (snd r) !! g_nextServerId g
         = Some (mkServer (Some fd) true ∅)
      /\ (forall id srv, g_servers g !! id = Some srv ->
            g_servers (snd r) !! id = Some srv /\ id < g_nextServerId g)
      /\ g_nextServerId (snd r) = g_nextServerId g + 1
      /\ forall name,
           ButtonState [JsNumber (g_nextServerId g); JsString name] (snd r)
           = Returned (JsBoolean false)).
Proof.
  intros Hroom g info. unfold max_creations in Hroom.
  destruct (steps_ids_below l 0 initial initial_ids_below
              ltac:(unfold max_creations; lia)) as [[Hnext Hids] _].
  fold g in Hnext, Hids.
  assert (Hfresh : g_servers g !! g_nextServerId g = None).
  { destruct (g_servers g !! g_nextServerId g) eqn:Hl; [|reflexivity].
    assert (H : is_Some (g_servers g !! g_nextServerId g)) by eauto.
    apply Hids in H. lia. }
  split.
  - intros Hfail.
    destruct (CreateServer_cases info wsa_ok os g)
      as [(Hs & Hn & Hno & _)|(fd' & fn' & _ & _ & _ & _ & Hw & Ho & _)];
      cbv zeta in *; [auto|].
    destruct Hfail as [Hf|Hf]; [congruence | now destruct (Hf fd')].
  - cbn. split_and!; auto.
    + apply lookup_insert_eq.
    + intros id srv Hl.
      assert (H : is_Some (g_servers g !! id)) by eauto.
      apply Hids in H.
      rewrite lookup_insert_ne by lia. split; [exact Hl | lia].
    + apply int_wrap_in_range. lia.
    + intros name. unfold button_state_of.
      destruct (name_to_code name) as [code|]; [|reflexivity].
      cbn [g_servers]. rewrite lookup_insert_eq.
      unfold IsButtonHeld. cbn [buttonStates]. now rewrite lookup_empty.
Qed.

Lemma X15_witness :
  let g := steps [DoCreate [JsNumber 50500; JsFunction 1] true (Listening 3)]
             initial in
  g_servers (snd (CreateServer [JsNumber 50500; JsFunction 2] true
                    BindFailed g)) = g_servers g
  /\ g_nextServerId (snd (CreateServer [JsNumber 50500; JsFunction 2] true
                            BindFailed g)) = g_nextServerId g
  /\ forall v, fst (CreateServer [JsNumber 50500; JsFunction 2] true
                      BindFailed g) <> Returned v.
Proof.
  refine (proj1 (X15_createServer_allocates_fresh_ids
                   [DoCreate [JsNumber 50500; JsFunction 1] true (Listening 3)]
                   50500 2 [] true BindFailed 0 _) _).
  - vm_compute. reflexivity.
  - right. intros fd'. discriminate.
Defined.

(** ** What the host is sent *)

Lemma forward_all_posted (t : list Call) :
  forall g,
    posted (fold_left (fun a c => forward c a) t g)
    = posted g ++ payloads (g_eventCallback g) (g_rawCallback g) t.
Proof.
  induction t as [|c t IH]; intros g; cbn [fold_left payloads].
  - now rewrite app_nil_r.
  - rewrite IH.
    destruct c as [data|code held|eventName count];
      cbn [forward payload_of]; unfold EmitRawData, EmitToNode, post.
    + destruct (g_rawCallback g) eqn:Hr; cbn; rewrite ?Hr;
        now rewrite <- ?app_assoc.
    + reflexivity.
    + destruct (g_eventCallback g) eqn:He; cbn; rewrite ?He;
        now rewrite <- ?app_assoc.
Qed.

Lemma payloads_app (ev raw : option ThreadSafeFunction) (t1 t2 : list Call) :
  payloads ev raw (t1 ++ t2) = payloads ev raw t1 ++ payloads ev raw t2.
Proof.
  induction t1 as [|c t1 IH]; cbn [payloads app]; [reflexivity|].
  now rewrite IH, app_assoc.
Qed.

(** Without raw calls, the payloads are the events, on the event handle. *)
Lemma payloads_events (ev raw : option ThreadSafeFunction) (t : list Call) :
  raw_calls t = [] ->
  payloads ev raw t
  = match ev with
    | Some h => List.map (fun e => (h, ControlEvent (fst e) (snd e)))
                         (emitted t)
    | None => []
    end.
Proof.
  induction t as [|[data|code held|eventName count] t IH];
    cbn [raw_calls payloads payload_of emitted]; intros Hraw.
  - now destruct ev.
  - discriminate.
  - now apply IH.
  - rewrite (IH Hraw). now destruct ev.
Qed.

Lemma payloads_no_connection_event (ev raw : option ThreadSafeFunction)
    (t : list Call) :
  forallb (fun hp => negb (is_connection_event hp)) (payloads ev raw t) = true.
Proof.
  induction t as [|[data|code held|eventName count] t IH];
    cbn [payloads payload_of]; [reflexivity| |exact IH|].
  - destruct raw; cbn; exact IH.
  - destruct ev; cbn; exact IH.
Qed.

Lemma step_listener_has_handle (s : Step) (g : Globals) :
  ((forall id, g_servers g !! id = None)
   \/ exists fn, g_eventCallback g = Some (mkTsfn fn "TourBoxEventCallback")) ->
  (forall id, g_servers (step s g) !! id = None)
  \/ exists fn,
       g_eventCallback (step s g) = Some (mkTsfn fn "TourBoxEventCallback").
Proof.
  intros Hinv.
  destruct s as [info wsa_ok os|info|serverId data|eventType ip port];
    cbn [step].
  - destruct (CreateServer_cases info wsa_ok os g)
      as [(Hs & _ & _ & [He|He] & _)|(fd & fn & _ & _ & _ & He & _)];
      cbv zeta in *; [|now right|right; eauto].
    rewrite Hs, He. exact Hinv.
  - destruct info as [|[| |b|serverId|u|f] rest]; cbn [StopServer snd];
      try exact Hinv.
    destruct (g_servers g !! serverId); cbn [snd]; [|exact Hinv].
    cbn [g_servers g_eventCallback].
    destruct Hinv as [Hnone|Hev]; [left|now right].
    intros id. destruct (decide (serverId = id)) as [<-|Hne].
    + apply lookup_delete_eq.
    + now rewrite lookup_delete_ne.
  - destruct (connection_input_frame serverId data g)
      as (Hs & _ & He & _); cbv zeta in *.
    rewrite He. destruct Hinv as [Hnone|Hev]; [left|now right].
    intros id.
    destruct (g_servers (connection_input serverId data g) !! id) eqn:Hl;
      [|reflexivity].
    assert (H : is_Some (g_servers g !! id)) by (apply Hs; eauto).
    rewrite Hnone in H. now destruct H.
  - unfold EmitConnectionEvent, post.
    destruct (g_eventCallback g) eqn:He;
      cbn [g_servers g_eventCallback]; rewrite ?He; exact Hinv.
Qed.

(** X17.  From the start of the process on, whenever a listener is in
    [g_servers] the global event handle is set, and it is a handle made by
    [CreateServer]: no event of a live listener's connection is skipped by
    [EmitToNode] for want of a handle. *)
Theorem X17_live_listener_has_event_handle (l : list Step) (id : Z) :
  is_Some (g_servers (steps l initial) !! id) ->
  exists fn,
    g_eventCallback (steps l initial)
    = Some (mkTsfn fn "TourBoxEventCallback").
Proof.
  intros [srv Hlive].
  destruct (steps_invariant _ step_listener_has_handle l initial) as [Hn|He].
  - left. intros id'. apply lookup_empty.
  - rewrite Hn in Hlive. discriminate.
  - exact He.
Qed.

Lemma X17_witness :
  exists fn,
    g_eventCallback
      (steps [DoCreate [JsNumber 50500; JsFunction 1] true (Listening 3);
              DoCreate [JsNumber 50501; JsFunction 2] true BindFailed;
              DoStop [JsNumber 7]] initial)
    = Some (mkTsfn fn "TourBoxEventCallback").
Proof.
  refine (X17_live_listener_has_event_handle
            [DoCreate [JsNumber 50500; JsFunction 1] true (Listening 3);
             DoCreate [JsNumber 50501; JsFunction 2] true BindFailed;
             DoStop [JsNumber 7]] 1 _).
  eexists. vm_compute. reflexivity.
Defined.

(** ** Press and release as the host sees them *)

Lemma key_is_a_byte (v : Z) (ca : ControlAction) :
  StdMap.find v controlMap = Some ca -> 0 <= v <= 255.
Proof.
  intros H.
  apply (controlMap_check (fun k _ => (0 <=? k) && (k <=? 255))) in H;
    [|reflexivity].
  apply andb_true_iff in H as [H1 H2].
  apply Z.leb_le in H1, H2. lia.
Qed.

Lemma unsigned_char_chunk (v : Z) :
  0 <= v <= 255 -> List.map unsigned_char (chunk [v]) = [v].
Proof.
  intros Hv. unfold chunk, unsigned_char. cbn [List.map].
  destruct (Byte.of_N (Z.to_N v)) as [b|] eqn:Hb.
  - apply Byte.to_of_N in Hb. rewrite Hb. f_equal. lia.
  - apply Byte.of_N_None_iff in Hb. lia.
Qed.

Lemma connection_input_held (serverId p : Z) (cp : ControlAction)
    (data : list byte) (g : Globals) (srv : TourBoxServerWrapper) :
  g_servers g !! serverId = Some srv ->
  StdMap.find p controlMap = Some cp -> isPress cp = true ->
  exists srv',
    g_servers (connection_input serverId data g) !! serverId = Some srv'
    /\ IsButtonHeld p srv'
       = held_after p (releaseCode cp)
           (runs (List.map unsigned_char data)) (IsButtonHeld p srv).
Proof.
  intros Hlive Hp Hpress.
  rewrite connection_input_servers, Hlive, lookup_insert_eq.
  pose proof (handle_groups_held_flag p cp
                (runs (List.map unsigned_char data)) Hp Hpress srv
                [CallEmitRawData data]) as (srv' & Hs & Hf).
  rewrite processData_runs. unfold call_EmitRawData. cbn [server trace app].
  rewrite Hs. eauto.
Qed.

(** X19.  Press and release through the whole engine, for every press
    control.  When a connection of a live listener receives the press byte,
    [ButtonState] answers [true] for the control's name, with the listener's
    id and without; when it then receives the paired release byte, the
    query with the listener's id answers [false]. *)
Theorem X19_press_then_release_seen_by_host
    (serverId p : Z) (cp : ControlAction) (g : Globals)
    (srv : TourBoxServerWrapper) :
  g_servers g !! serverId = Some srv ->
  StdMap.find p controlMap = Some cp -> isPress cp = true ->
  let g1 := connection_input serverId (chunk [p]) g in
  let g2 := connection_input serverId (chunk [releaseCode cp]) g1 in
  ButtonState [JsNumber serverId; JsString (name cp)] g1
  = Returned (JsBoolean true)
  /\ ButtonState [JsString (name cp)] g1 = Returned (JsBoolean true)
  /\ ButtonState [JsNumber serverId; JsString (name cp)] g2
     = Returned (JsBoolean false).
Proof.
  intros Hlive Hp Hpress g1 g2.
  destruct (release_row_of_press p cp Hp Hpress) as (row & Hrow & Hrowp).
  assert (Hne : releaseCode cp <> p).
  { intros Heq. rewrite Heq, Hp in Hrow. injection Hrow as <-. congruence. }
  assert (Hname : name_to_code (name cp) = Some p).
  { unfold name_to_code. now rewrite (name_table_forward p cp Hp). }
  destruct (connection_input_held serverId p cp (chunk [p]) g srv
              Hlive Hp Hpress) as (s1 & Hl1 & Hf1).
  rewrite (unsigned_char_chunk p (key_is_a_byte p cp Hp)) in Hf1.
  cbn [runs held_after fold_left fst] in Hf1. rewrite Z.eqb_refl in Hf1.
  fold g1 in Hl1.
  destruct (connection_input_held serverId p cp (chunk [releaseCode cp]) g1 s1
              Hl1 Hp Hpress) as (s2 & Hl2 & Hf2).
  rewrite (unsigned_char_chunk _ (key_is_a_byte _ row Hrow)) in Hf2.
  cbn [runs held_after fold_left fst] in Hf2.
  apply Z.eqb_neq in Hne. rewrite Hne, Z.eqb_refl in Hf2.
  fold g2 in Hl2.
  assert (H1 : button_state_of (Some serverId) (name cp) g1 = true).
  { unfold button_state_of. now rewrite Hname, Hl1. }
  cbn [ButtonState]. split_and!; f_equal; f_equal.
  - exact H1.
  - apply button_state_any. exists p, serverId, s1. auto.
  - unfold button_state_of. now rewrite Hname, Hl2.
Qed.

Lemma X19_witness :
  let g := steps [DoCreate [JsNumber 50500; JsFunction 1] true (Listening 3)]
             initial in
  let g1 := connection_input 1 (chunk [42]) g in
  let g2 := connection_input 1 (chunk [170]) g1 in
  ButtonState [JsNumber 1; JsString "Tour Press"] g1
  = Returned (JsBoolean true)
  /\ ButtonState [JsString "Tour Press"] g1 = Returned (JsBoolean true)
  /\ ButtonState [JsNumber 1; JsString "Tour Press"] g2
     = Returned (JsBoolean false).
Proof.
  exact (X19_press_then_release_seen_by_host 1 42
           (mkControlAction "Tour Press" true 170 (Some "Tour Press"))
           (steps [DoCreate [JsNumber 50500; JsFunction 1] true (Listening 3)]
              initial)
           (mkServer (Some 3) true ∅) eq_refl eq_refl eq_refl).
Defined.

(** ** Held flags across chunk boundaries *)

Lemma held_after_runs (p r : Z) (l : list Z) :
  forall held,
    held_after p r (runs l) held = held_after_bytes p r l held.
Proof.
  unfold held_after, held_after_bytes.
  induction l as [|x l IH]; intros held; [reflexivity|].
  cbn [runs fold_left]. rewrite <- IH.
  destruct (runs l) as [|[y k] g]; [reflexivity|].
  destruct (Z.eqb_spec x y) as [->|Hne]; cbn [fold_left fst]; [|reflexivity].
  destruct (y =? p); [reflexivity|]. now destruct (y =? r).
Qed.

Lemma held_after_bytes_app (p r : Z) (l1 l2 : list Z) (held : bool) :
  held_after_bytes p r (l1 ++ l2) held
  = held_after_bytes p r l2 (held_after_bytes p r l1 held).
Proof. unfold held_after_bytes. apply fold_left_app. Qed.

(** X20.  The held flag of a press code after a connection depends on the
    bytes received only, not on how they were cut into chunks: it is the
    flag before, updated byte by byte over all chunks in order (a press
    byte sets it, its release byte clears it).  Cutting the stream
    differently changes the counts of the events, never what is held. *)
Theorem X20_held_flags_ignore_chunk_boundaries
    (p : Z) (cp : ControlAction) (chunks : list (byte * list byte))
    (srv : TourBoxServerWrapper) (tr : list Call) :
  StdMap.find p controlMap = Some cp -> isPress cp = true ->
  exists srv',
    server (Run (List.map (fun c => RecvBytes (fst c :: snd c)) chunks)
              (mkState (Some srv) tr)) = Some srv'
    /\ IsButtonHeld p srv'
       = held_after_bytes p (releaseCode cp)
           (List.map unsigned_char
              (List.concat (List.map (fun c => fst c :: snd c) chunks)))
           (IsButtonHeld p srv).
Proof.
  intros Hp Hpress. rewrite Run_chunks. revert srv tr.
  induction chunks as [|c chunks IH]; intros srv tr.
  - exists srv. split; reflexivity.
  - cbn [fold_left List.map List.concat].
    rewrite processData_runs.
    destruct (handle_groups_held_flag p cp
                (runs (List.map unsigned_char (fst c :: snd c))) Hp Hpress
                srv (tr ++ [CallEmitRawData (fst c :: snd c)]))
      as (s1 & Hs1 & Hf1).
    unfold call_EmitRawData. cbn [server trace].
    destruct (handle_groups _ _) as [o1 t1].
    cbn [server] in Hs1. subst o1.
    destruct (IH s1 t1) as (s2 & Hs2 & Hf2).
    exists s2. split; [exact Hs2|].
    rewrite Hf2, Hf1, held_after_runs, map_app, held_after_bytes_app.
    reflexivity.
Qed.

Lemma X20_witness :
  exists srv',
    server (Run [RecvBytes (chunk [34; 34]); RecvBytes (chunk [34; 162])]
              (mkState (Some new_server) [])) = Some srv'
    /\ IsButtonHeld 34 srv'
       = held_after_bytes 34 162
           (List.map unsigned_char (chunk [34; 34] ++ chunk [34; 162] ++ []))
           (IsButtonHeld 34 new_server).
Proof.
  exact (X20_held_flags_ignore_chunk_boundaries 34
           (mkControlAction "C1 Press" true 162 (Some "C1 Press"))
           [("034"%byte, ["034"%byte]); ("034"%byte, ["162"%byte])]
           new_server [] eq_refl eq_refl).
Defined.

(** * Calls that may not come back *)

(** ** Posting the calls of a decoder *)

Lemma with_globals_same (p : Process) : with_globals (globals p) p = p.
Proof. now destruct p. Qed.

Lemma forward_call_done (c : Call) (p : Process) :
  (raw_calls [c] = []
   \/ slot_usable (g_rawCallback (globals p)) (rawReleased p) = true) ->
  (emitted [c] = []
   \/ slot_usable (g_eventCallback (globals p)) (eventReleased p) = true) ->
  forward_call c p = Done tt (with_globals (forward c (globals p)) p).
Proof.
  intros Hraw Hev.
  destruct c as [data|code held|eventName count]; cbn [forward_call forward].
  - destruct Hraw as [Hraw|Hraw]; [discriminate|].
    unfold EmitRawData_call, post_raw, EmitRawData.
    destruct (g_rawCallback (globals p)) as [h|]; cbn in Hraw |- *.
    + apply negb_true_iff in Hraw. now rewrite Hraw.
    + now rewrite with_globals_same.
  - now rewrite with_globals_same.
  - destruct Hev as [Hev|Hev]; [discriminate|].
    unfold EmitToNode_call, post_event, EmitToNode.
    destruct (g_eventCallback (globals p)) as [h|]; cbn in Hev |- *.
    + apply negb_true_iff in Hev. now rewrite Hev.
    + now rewrite with_globals_same.
Qed.

Lemma forward_handles (c : Call) (g : Globals) :
  g_eventCallback (forward c g) = g_eventCallback g
  /\ g_rawCallback (forward c g) = g_rawCallback g.
Proof.
  destruct c as [data|code held|eventName count]; cbn [forward];
    unfold EmitRawData, EmitToNode, post.
  - destruct (g_rawCallback g) eqn:H; cbn; rewrite ?H; auto.
  - auto.
  - destruct (g_eventCallback g) eqn:H; cbn; rewrite ?H; auto.
Qed.

(** With every needed handle usable, the calls are all posted. *)
Lemma forward_calls_done (t : list Call) :
  forall p,
    (raw_calls t = []
     \/ slot_usable (g_rawCallback (globals p)) (rawReleased p) = true) ->
    (emitted t = []
     \/ slot_usable (g_eventCallback (globals p)) (eventReleased p) = true) ->
    forward_calls t p
    = Done tt (with_globals (fold_left (fun g c => forward c g) t (globals p))
                 p).
Proof.
  induction t as [|c t IH]; intros p Hraw Hev; cbn [forward_calls fold_left].
  - now rewrite with_globals_same.
  - rewrite forward_call_done.
    + cbn [and_then].
      destruct (forward_handles c (globals p)) as [He Hr].
      rewrite IH; cbn [with_globals globals eventReleased rawReleased].
      * reflexivity.
      * rewrite Hr. destruct Hraw as [Hraw|Hraw]; [left|now right].
        destruct c; cbn in Hraw; congruence.
      * rewrite He. destruct Hev as [Hev|Hev]; [left|now right].
        destruct c; cbn in Hev; congruence.
    + destruct Hraw as [Hraw|Hraw]; [left|now right].
      destruct c; cbn in Hraw |- *; congruence.
    + destruct Hev as [Hev|Hev]; [left|now right].
      destruct c; cbn in Hev |- *; congruence.
Qed.

(** An event on a released event handle aborts the process. *)
Lemma forward_calls_event_aborts (t : list Call) :
  forall p h,
    (raw_calls t = []
     \/ slot_usable (g_rawCallback (globals p)) (rawReleased p) = true) ->
    g_eventCallback (globals p) = Some h -> eventReleased p = true ->
    emitted t <> [] ->
    forward_calls t p = Aborts.
Proof.
  induction t as [|c t IH]; intros p h Hraw Hev Hrel Hsome;
    [now destruct Hsome|].
  cbn [forward_calls].
  destruct c as [data|code held|eventName count].
  - rewrite forward_call_done; [|destruct Hraw; [discriminate|now right]
                                 |now left].
    cbn [and_then]. destruct (forward_handles (CallEmitRawData data) (globals p))
      as [He Hr].
    apply (IH _ h); cbn [with_globals globals eventReleased rawReleased];
      rewrite ?He, ?Hr; auto.
    destruct Hraw as [Hraw|Hraw]; [discriminate|now right].
  - cbn [forward_call and_then]. apply (IH _ h); auto.
  - cbn [forward_call]. unfold EmitToNode_call, post_event.
    now rewrite Hev, Hrel.
Qed.

(** ** One chunk *)

Lemma processData_from_start (data : list byte) (srv : TourBoxServerWrapper) :
  exists more,
    trace (processData data (mkState (Some srv) []))
    = CallEmitRawData data :: more
    /\ raw_calls more = []
    /\ emitted more = events_of (runs (List.map unsigned_char data)).
Proof.
  destruct (processData_appends data (mkState (Some srv) []))
    as (more & Htrace & Hraw).
  pose proof (emitted_processData data (mkState (Some srv) [])) as Hev.
  rewrite Htrace in Hev. cbn [trace app emitted] in Hev, Htrace.
  eauto.
Qed.

Lemma chunk_arrives_live_done (serverId : Z) (data : list byte)
    (p : Process) (srv : TourBoxServerWrapper) :
  g_servers (globals p) !! serverId = Some srv ->
  slot_usable (g_rawCallback (globals p)) (rawReleased p) = true ->
  (events_of (runs (List.map unsigned_char data)) = []
   \/ slot_usable (g_eventCallback (globals p)) (eventReleased p) = true) ->
  chunk_arrives serverId data p
  = Done tt (with_globals (connection_input serverId data (globals p)) p).
Proof.
  intros Hlive Hraw Hev. unfold chunk_arrives, connection_input.
  rewrite Hlive.
  destruct (processData_from_start data srv) as (more & Ht & _ & Hem).
  rewrite forward_calls_done; cbn [with_globals globals eventReleased
                                    rawReleased g_rawCallback g_eventCallback].
  - reflexivity.
  - now right.
  - rewrite Ht. cbn [emitted]. rewrite Hem. exact Hev.
Qed.

Lemma chunk_arrives_raw_aborts (serverId : Z) (data : list byte)
    (p : Process) (h : ThreadSafeFunction) :
  g_rawCallback (globals p) = Some h -> rawReleased p = true ->
  chunk_arrives serverId data p = Aborts.
Proof.
  intros Hraw Hrel. unfold chunk_arrives.
  destruct (g_servers (globals p) !! serverId) as [srv|].
  - destruct (processData_from_start data srv) as (more & Ht & _).
    rewrite Ht. cbn [forward_calls forward_call].
    unfold EmitRawData_call, post_raw.
    cbn [with_globals globals rawReleased g_rawCallback].
    now rewrite Hraw, Hrel.
  - unfold EmitRawData_call, post_raw. now rewrite Hraw, Hrel.
Qed.

Lemma chunk_arrives_event_aborts (serverId : Z) (data : list byte)
    (p : Process) (srv : TourBoxServerWrapper) (h : ThreadSafeFunction) :
  g_servers (globals p) !! serverId = Some srv ->
  slot_usable (g_rawCallback (globals p)) (rawReleased p) = true ->
  g_eventCallback (globals p) = Some h -> eventReleased p = true ->
  events_of (runs (List.map unsigned_char data)) <> [] ->
  chunk_arrives serverId data p = Aborts.
Proof.
  intros Hlive Hraw Hev Hrel Hsome. unfold chunk_arrives. rewrite Hlive.
  destruct (processData_from_start data srv) as (more & Ht & _ & Hem).
  apply (forward_calls_event_aborts _ _ h);
    cbn [with_globals globals eventReleased rawReleased g_rawCallback
         g_eventCallback]; auto.
  rewrite Ht. cbn [emitted]. now rewrite Hem.
Qed.

Lemma connection_input_posted (serverId : Z) (data : list byte) (g : Globals)
    (srv : TourBoxServerWrapper) :
  g_servers g !! serverId = Some srv ->
  posted (connection_input serverId data g)
  = posted g
    ++ payloads (g_eventCallback g) (g_rawCallback g)
         (CallEmitRawData data
          :: List.map (fun e => CallEmitToNode (fst e) (snd e))
               (events_of (runs (List.map unsigned_char data)))).
Proof.
  intros Hlive. unfold connection_input. rewrite Hlive.
  rewrite forward_all_posted. cbn [posted g_eventCallback g_rawCallback].
  f_equal.
  destruct (processData_from_start data srv) as (more & Ht & Hraw & Hem).
  rewrite Ht. cbn [payloads]. f_equal.
  rewrite (payloads_events _ _ more Hraw), Hem.
  generalize (events_of (runs (List.map unsigned_char data))). intros es.
  induction es as [|e es IH]; cbn [List.map payloads payload_of emitted].
  - now destruct (g_eventCallback g).
  - destruct (g_eventCallback g); [|exact IH]. cbn. f_equal. exact IH.
Qed.

(** ** A connection whose listener was erased *)

Lemma runs_values (l : list Z) (v c : Z) : In (v, c) (runs l) -> In v l.
Proof.
  revert v c. induction l as [|x l IH]; intros v c; [intros []|].
  cbn [runs]. destruct (runs l) as [|[y k] g].
  - intros [[= <- _]|[]]. now left.
  - destruct (Z.eqb_spec x y) as [->|_].
    + intros [[= <- _]|Hin]; [now left|].
      right. apply (IH v c). now right.
    + intros [[= <- _]|Hin]; [now left|]. right. now apply (IH v c).
Qed.

Lemma runs_head (v : Z) (l : list Z) :
  exists k g, runs (v :: l) = (v, k) :: g.
Proof.
  cbn [runs]. destruct (runs l) as [|[y k] g]; [eauto|].
  destruct (v =? y); eauto.
Qed.

Lemma destroyed_group_untouched (v c : Z) :
  touches_server v = false ->
  destroyed_group (v, c)
  = match event_of_group (v, c) with
    | Some e => [Emits (CallEmitToNode (fst e) (snd e))]
    | None => []
    end.
Proof.
  unfold touches_server, destroyed_group, event_of_group. cbn [fst snd].
  destruct (StdMap.find v controlMap) as [act|]; [|reflexivity].
  intros H. apply orb_false_iff in H as [Hp Hq].
  apply negb_false_iff in Hq. rewrite Hp, Hq.
  now destruct (action act).
Qed.

Lemma destroyed_group_touched (v c : Z) :
  touches_server v = true -> destroyed_group (v, c) = [Dereferences].
Proof.
  unfold touches_server, destroyed_group. cbn [fst snd].
  destruct (StdMap.find v controlMap) as [act|]; [|discriminate].
  destruct (isPress act); [reflexivity|]. cbn [orb].
  intros H. apply negb_true_iff in H. now rewrite H.
Qed.

Lemma destroyed_steps_untouched (groups : list (Z * Z)) :
  Forall (fun g => touches_server (fst g) = false) groups ->
  forall p,
    destroyed_steps (flat_map destroyed_group groups) p
    = forward_calls
        (List.map (fun e => CallEmitToNode (fst e) (snd e)) (events_of groups))
        p.
Proof.
  induction 1 as [|[v c] groups Hv _ IH]; intros p; [reflexivity|].
  cbn [flat_map events_of]. cbn [fst] in Hv.
  rewrite (destroyed_group_untouched v c Hv).
  destruct (event_of_group (v, c)) as [e|];
    cbn [app destroyed_steps List.map forward_calls]; [|apply IH].
  destruct (forward_call (CallEmitToNode (fst e) (snd e)) p);
    cbn [and_then]; auto.
Qed.

Lemma chunk_arrives_erased_done (serverId : Z) (data : list byte)
    (p : Process) :
  g_servers (globals p) !! serverId = None ->
  slot_usable (g_rawCallback (globals p)) (rawReleased p) = true ->
  (events_of (runs (List.map unsigned_char data)) = []
   \/ slot_usable (g_eventCallback (globals p)) (eventReleased p) = true) ->
  Forall (fun v => touches_server v = false) (List.map unsigned_char data) ->
  chunk_arrives serverId data p
  = Done tt
      (with_globals
         (fold_left (fun g c => forward c g)
            (CallEmitRawData data
             :: List.map (fun e => CallEmitToNode (fst e) (snd e))
                  (events_of (runs (List.map unsigned_char data))))
            (globals p)) p).
Proof.
  intros Hdead Hraw Hev Hun. unfold chunk_arrives. rewrite Hdead.
  assert (Hgroups : Forall (fun g => touches_server (fst g) = false)
                      (runs (List.map unsigned_char data))).
  { apply List.Forall_forall. intros [v c] Hin. cbn [fst].
    apply runs_values in Hin.
    rewrite List.Forall_forall in Hun. now apply Hun. }
  set (es := events_of (runs (List.map unsigned_char data))) in *.
  assert (Hem : emitted (List.map (fun e => CallEmitToNode (fst e) (snd e)) es)
                = es).
  { clear. induction es as [|[n c] es IH]; cbn; congruence. }
  change (and_then (EmitRawData_call data p)
            (fun _ => destroyed_steps
                        (flat_map destroyed_group
                           (runs (List.map unsigned_char data)))))
    with (and_then (forward_call (CallEmitRawData data) p)
            (fun _ => destroyed_steps
                        (flat_map destroyed_group
                           (runs (List.map unsigned_char data))))).
  rewrite <- (forward_calls_done (CallEmitRawData data :: _) p).
  - cbn [forward_calls]. destruct (forward_call _ p); cbn [and_then]; auto.
    apply destroyed_steps_untouched, Hgroups.
  - now right.
  - cbn [emitted]. rewrite Hem. exact Hev.
Qed.

Lemma chunk_arrives_erased_undefined (serverId : Z) (b : byte)
    (bs : list byte) (p : Process) :
  g_servers (globals p) !! serverId = None ->
  slot_usable (g_rawCallback (globals p)) (rawReleased p) = true ->
  touches_server (unsigned_char b) = true ->
  chunk_arrives serverId (b :: bs) p = Undefined.
Proof.
  intros Hdead Hraw Htouch. unfold chunk_arrives. rewrite Hdead.
  change (EmitRawData_call (b :: bs) p)
    with (forward_call (CallEmitRawData (b :: bs)) p).
  rewrite forward_call_done; [|now right|now left]. cbn [and_then].
  cbn [List.map].
  destruct (runs_head (unsigned_char b) (List.map unsigned_char bs))
    as (k & g & Hruns).
  rewrite Hruns. cbn [flat_map].
  now rewrite (destroyed_group_touched _ k Htouch).
Qed.

(** X16.  What a chunk puts on the queues of the host, and when it does
    not get there.  For a connection of a listener that is in [g_servers],
    with every handle that is needed in use: first the chunk itself on the
    raw handle, if there is one, then the events of its maximal runs on the
    event handle, if there is one, in order.  When the raw handle was
    released the process aborts at the raw buffer; when the event handle
    was released it aborts at the first event.  The thread of a connection
    whose listener was erased still posts: the raw buffer, then the events
    of a chunk none of whose bytes makes the decoder call into the server
    object; a chunk that starts with a press or release byte accesses the
    destroyed object. *)
Theorem X16_chunk_reaches_the_host
    (serverId : Z) (data : list byte) (p : Process) :
  let events := events_of (runs (List.map unsigned_char data)) in
  let queued :=
    match g_rawCallback (globals p) with
    | Some h => [(h, RawBuffer data)]
    | None => []
    end
    ++ match g_eventCallback (globals p) with
       | Some h => List.map (fun e => (h, ControlEvent (fst e) (snd e))) events
       | None => []
       end in
  let raw_usable :=
    slot_usable (g_rawCallback (globals p)) (rawReleased p) = true in
  let event_usable :=
    slot_usable (g_eventCallback (globals p)) (eventReleased p) = true in
  (forall srv,
      g_servers (globals p) !! serverId = Some srv ->
      raw_usable -> events = [] \/ event_usable ->
      exists p',
        chunk_arrives serverId data p = Done tt p'
        /\ globals p' = connection_input serverId data (globals p)
        /\ posted (globals p') = posted (globals p) ++ queued
        /\ eventReleased p' = eventReleased p
        /\ rawReleased p' = rawReleased p)
  /\ (forall h,
         g_rawCallback (globals p) = Some h -> rawReleased p = true ->
         chunk_arrives serverId data p = Aborts)
  /\ (forall srv h,
         g_servers (globals p) !! serverId = Some srv ->
         raw_usable ->
         g_eventCallback (globals p) = Some h -> eventReleased p = true ->
         events <> [] ->
         chunk_arrives serverId data p = Aborts)
  /\ (g_servers (globals p) !! serverId = None ->
      raw_usable -> events = [] \/ event_usable ->
      Forall (fun v => touches_server v = false)
             (List.map unsigned_char data) ->
      exists p',
        chunk_arrives serverId data p = Done tt p'
        /\ g_servers (globals p') = g_servers (globals p)
        /\ posted (globals p') = posted (globals p) ++ queued)
  /\ (forall b bs,
         data = b :: bs ->
         g_servers (globals p) !! serverId = None ->
         raw_usable ->
         touches_server (unsigned_char b) = true ->
         chunk_arrives serverId data p = Undefined).
Proof.
  intros events queued raw_usable event_usable.
  assert (Hqueued :
    payloads (g_eventCallback (globals p)) (g_rawCallback (globals p))
      (CallEmitRawData data
       :: List.map (fun e => CallEmitToNode (fst e) (snd e)) events)
    = queued).
  { subst queued. cbn [payloads payload_of]. f_equal.
    generalize events. clear. intros es.
    induction es as [|e es IH]; cbn [List.map payloads payload_of].
    - now destruct (g_eventCallback (globals p)).
    - destruct (g_eventCallback (globals p)); [|exact IH].
      cbn. f_equal. exact IH. }
  subst raw_usable event_usable events.
  split_and!.
  - intros srv Hlive Hraw Hev. eexists. split_and!.
    + apply (chunk_arrives_live_done _ _ _ srv Hlive Hraw Hev).
    + reflexivity.
    + cbn [with_globals globals].
      now rewrite (connection_input_posted _ _ _ srv Hlive), Hqueued.
    + reflexivity.
    + reflexivity.
  - intros h. apply chunk_arrives_raw_aborts.
  - intros srv h Hlive Hraw Hev Hrel Hsome.
    exact (chunk_arrives_event_aborts _ _ _ srv h Hlive Hraw Hev Hrel Hsome).
  - intros Hdead Hraw Hev Hun. eexists. split_and!.
    + apply (chunk_arrives_erased_done _ _ _ Hdead Hraw Hev Hun).
    + cbn [with_globals globals].
      match goal with
      | |- context [fold_left _ ?t ?g0] =>
          destruct (forward_all_frame t g0) as (Hs & _)
      end.
      exact Hs.
    + cbn [with_globals globals].
      now rewrite forward_all_posted, Hqueued.
  - intros b bs -> Hdead Hraw Htouch.
    now apply chunk_arrives_erased_undefined.
Qed.

Lemma X16_witness :
  let g := snd (CreateServer [JsNumber 50500; JsFunction 1; JsFunction 5] true
                  (Listening 3) initial) in
  (exists p',
      chunk_arrives 1 (chunk [132; 132; 99; 34]) (mkProcess g false false)
      = Done tt p'
      /\ globals p' = connection_input 1 (chunk [132; 132; 99; 34]) g
      /\ posted (globals p')
         = [(mkTsfn 5 "TourBoxRawCallback",
             RawBuffer (chunk [132; 132; 99; 34]));
            (mkTsfn 1 "TourBoxEventCallback", ControlEvent "Knob CCW" 2);
            (mkTsfn 1 "TourBoxEventCallback", ControlEvent "C1 Press" 1)]
      /\ eventReleased p' = false /\ rawReleased p' = false)
  /\ chunk_arrives 1 (chunk [132]) (mkProcess g true true) = Aborts
  /\ chunk_arrives 1 (chunk [132])
       (mkProcess (snd (CreateServer [JsNumber 50500; JsFunction 1] true
                          (Listening 3) initial)) true false) = Aborts
  /\ chunk_arrives 7 (chunk [34]) (mkProcess g false false) = Undefined.
Proof.
  intros g. split_and!.
  - exact (proj1 (X16_chunk_reaches_the_host 1 (chunk [132; 132; 99; 34])
                    (mkProcess g false false))
             (mkServer (Some 3) true ∅) eq_refl eq_refl (or_intror eq_refl)).
  - exact (proj1 (proj2 (X16_chunk_reaches_the_host 1 (chunk [132])
                           (mkProcess g true true)))
             (mkTsfn 5 "TourBoxRawCallback") eq_refl eq_refl).
  - refine (proj1 (proj2 (proj2 (X16_chunk_reaches_the_host 1 (chunk [132])
                                   (mkProcess
                                      (snd (CreateServer
                                              [JsNumber 50500; JsFunction 1]
                                              true (Listening 3) initial))
                                      true false))))
              (mkServer (Some 3) true ∅) (mkTsfn 1 "TourBoxEventCallback")
              eq_refl eq_refl eq_refl eq_refl _).
    discriminate.
  - exact (proj2 (proj2 (proj2 (proj2
             (X16_chunk_reaches_the_host 7 (chunk [34])
                (mkProcess g false false)))))
             "034"%byte [] eq_refl eq_refl eq_refl eq_refl).
Defined.

(** ** One connection from accept to close *)

Lemma forallb_no_connection_app
    (l1 l2 : list (ThreadSafeFunction * Payload)) :
  forallb (fun hp => negb (is_connection_event hp)) l1 = true ->
  forallb (fun hp => negb (is_connection_event hp)) l2 = true ->
  forallb (fun hp => negb (is_connection_event hp)) (l1 ++ l2) = true.
Proof.
  intros H1 H2. rewrite forallb_app, H1, H2. reflexivity.
Qed.

(** The receive loop of a connection of a live listener, with an event
    handle in use and a raw slot that can be posted to, comes to its end. *)
Lemma receive_loop_live (serverId : Z) (recvs : list RecvResult) :
  forall p h,
    is_Some (g_servers (globals p) !! serverId) ->
    g_eventCallback (globals p) = Some h -> eventReleased p = false ->
    slot_usable (g_rawCallback (globals p)) (rawReleased p) = true ->
    exists p' mid,
      receive_loop serverId recvs p = Done tt p'
      /\ g_eventCallback (globals p') = Some h
      /\ eventReleased p' = false
      /\ rawReleased p' = rawReleased p
      /\ posted (globals p') = posted (globals p) ++ mid
      /\ forallb (fun hp => negb (is_connection_event hp)) mid = true.
Proof.
  induction recvs as [|[[|b bs]|] recvs IH]; intros p h Hlive Hev Hrel Hraw;
    try (exists p, []; cbn [receive_loop]; rewrite app_nil_r;
         split_and!; auto; fail).
  cbn [receive_loop]. destruct Hlive as [srv Hlive].
  rewrite (chunk_arrives_live_done serverId (b :: bs) p srv Hlive Hraw);
    [|right; rewrite Hev; cbn; now rewrite Hrel].
  cbn [and_then].
  destruct (connection_input_frame serverId (b :: bs) (globals p))
    as (Hs & _ & He & Hr & _); cbv zeta in *.
  destruct (IH (with_globals (connection_input serverId (b :: bs) (globals p))
                  p) h) as (p' & mid & Hloop & He' & Hrel' & Hraw' & Hp & Hno);
    cbn [with_globals globals eventReleased rawReleased].
  - apply Hs. eauto.
  - now rewrite He.
  - exact Hrel.
  - now rewrite Hr.
  - cbn [with_globals globals eventReleased rawReleased] in *.
    exists p', (payloads (g_eventCallback (globals p))
                  (g_rawCallback (globals p))
                  (CallEmitRawData (b :: bs)
                   :: List.map (fun e => CallEmitToNode (fst e) (snd e))
                        (events_of (runs (List.map unsigned_char (b :: bs)))))
                ++ mid).
    split_and!; auto.
    + rewrite Hp, (connection_input_posted _ _ _ srv Hlive).
      now rewrite app_assoc.
    + apply forallb_no_connection_app;
        [apply payloads_no_connection_event | exact Hno].
Qed.

(** X18.  The life of an accepted connection, followed on its own, queues
    exactly one connect event and one disconnect event with the peer's
    address and port, the first before and the second after everything else
    the connection queues, however the receive loop ends, when the listener
    is in [g_servers], the event handle is set and in use and the raw slot
    can be posted to.  When the event handle was released the process
    aborts at the connect event.  A peer that closes at once, on an event
    handle in use, gives the two events and nothing between. *)
Theorem X18_connect_then_disconnect
    (serverId : Z) (ip : string) (port : Z) (recvs : list RecvResult)
    (p : Process) (h : ThreadSafeFunction) :
  g_eventCallback (globals p) = Some h ->
  (eventReleased p = false ->
   is_Some (g_servers (globals p) !! serverId) ->
   slot_usable (g_rawCallback (globals p)) (rawReleased p) = true ->
   exists p' mid,
     connection_lives serverId ip port recvs p = Done tt p'
     /\ posted (globals p')
        = posted (globals p) ++ (h, ConnectionEvent "connect" ip port) :: mid
                             ++ [(h, ConnectionEvent "disconnect" ip port)]
     /\ forallb (fun hp => negb (is_connection_event hp)) mid = true)
  /\ (eventReleased p = true ->
      connection_lives serverId ip port recvs p = Aborts)
  /\ (eventReleased p = false ->
      forall later,
      exists p',
        connection_lives serverId ip port (RecvBytes [] :: later) p = Done tt p'
        /\ posted (globals p')
           = posted (globals p) ++ [(h, ConnectionEvent "connect" ip port);
                                    (h, ConnectionEvent "disconnect" ip port)]).
Proof.
  intros Hev. split_and!.
  - intros Hrel Hlive Hraw.
    unfold connection_lives, EmitConnectionEvent_call at 1, post_event.
    rewrite Hev, Hrel. cbn [and_then post].
    match goal with
    | |- context [receive_loop serverId recvs ?p1] =>
        destruct (receive_loop_live serverId recvs p1 h)
          as (p' & mid & Hloop & He' & Hrel' & _ & Hp & Hno);
        cbn [with_globals globals eventReleased rawReleased g_servers
             g_eventCallback g_rawCallback]; auto
    end.
    rewrite Hloop. cbn [and_then].
    unfold EmitConnectionEvent_call, post_event. rewrite He', Hrel'.
    eexists. exists mid. split_and!; [reflexivity| |exact Hno].
    cbn [with_globals globals post posted]. rewrite Hp.
    cbn [with_globals globals posted]. now rewrite <- !app_assoc.
  - intros Hrel. unfold connection_lives, EmitConnectionEvent_call, post_event.
    now rewrite Hev, Hrel.
  - intros Hrel later.
    unfold connection_lives, EmitConnectionEvent_call, post_event.
    rewrite Hev, Hrel.
    cbn [and_then post receive_loop with_globals globals eventReleased
         g_eventCallback].
    rewrite ?Hev, ?Hrel. eexists. split; [reflexivity|].
    cbn [with_globals globals posted post]. now rewrite <- app_assoc.
Qed.

Lemma X18_witness :
  let g := snd (CreateServer [JsNumber 50500; JsFunction 1] true (Listening 3)
                  initial) in
  let h := mkTsfn 1 "TourBoxEventCallback" in
  (exists p' mid,
      connection_lives 1 "127.0.0.1" 49152
        [RecvBytes (chunk [34]); RecvBytes []] (mkProcess g false false)
      = Done tt p'
      /\ posted (globals p')
         = posted g ++ (h, ConnectionEvent "connect" "127.0.0.1" 49152) :: mid
                    ++ [(h, ConnectionEvent "disconnect" "127.0.0.1" 49152)]
      /\ forallb (fun hp => negb (is_connection_event hp)) mid = true)
  /\ connection_lives 1 "127.0.0.1" 49152
       [RecvBytes (chunk [34]); RecvBytes []] (mkProcess g true false)
     = Aborts.
Proof.
  intros g h. split.
  - exact (proj1 (X18_connect_then_disconnect 1 "127.0.0.1" 49152
                    [RecvBytes (chunk [34]); RecvBytes []]
                    (mkProcess g false false) h eq_refl)
             eq_refl (ex_intro _ (mkServer (Some 3) true ∅) eq_refl) eq_refl).
  - exact (proj1 (proj2 (X18_connect_then_disconnect 1 "127.0.0.1" 49152
                           [RecvBytes (chunk [34]); RecvBytes []]
                           (mkProcess g true false) h eq_refl))
             eq_refl).
Defined.

(** ** Listener ids along a run of the process *)

Lemma post_frame (handle : option ThreadSafeFunction) (payload : Payload)
    (g : Globals) :
  g_servers (post handle payload g) = g_servers g
  /\ g_nextServerId (post handle payload g) = g_nextServerId g.
Proof. destruct handle; auto. Qed.

Lemma post_event_frame (payload : Payload) (p p' : Process) :
  post_event payload p = Done tt p' ->
  g_servers (globals p') = g_servers (globals p)
  /\ g_nextServerId (globals p') = g_nextServerId (globals p).
Proof.
  unfold post_event.
  destruct (g_eventCallback (globals p)); [destruct (eventReleased p)|];
    intros [= <-]; auto.
Qed.

Lemma forward_call_frame (c : Call) (p p' : Process) :
  forward_call c p = Done tt p' ->
  g_servers (globals p') = g_servers (globals p)
  /\ g_nextServerId (globals p') = g_nextServerId (globals p).
Proof.
  destruct c as [data|code held|eventName count]; cbn [forward_call];
    unfold EmitRawData_call, EmitToNode_call, post_raw, post_event.
  - destruct (g_rawCallback (globals p)); [destruct (rawReleased p)|];
      intros [= <-]; auto.
  - intros [= <-]; auto.
  - destruct (g_eventCallback (globals p)); [destruct (eventReleased p)|];
      intros [= <-]; auto.
Qed.

Lemma forward_calls_frame (t : list Call) :
  forall p p',
    forward_calls t p = Done tt p' ->
    g_servers (globals p') = g_servers (globals p)
    /\ g_nextServerId (globals p') = g_nextServerId (globals p).
Proof.
  induction t as [|c t IH]; intros p p'; cbn [forward_calls].
  - intros [= <-]. auto.
  - destruct (forward_call c p) as [[] p1| | |] eqn:Hc; cbn [and_then];
      try discriminate.
    intros H. apply IH in H as [H1 H2].
    apply forward_call_frame in Hc as [H3 H4]. split; congruence.
Qed.

Lemma destroyed_steps_frame (l : list DestroyedStep) :
  forall p p',
    destroyed_steps l p = Done tt p' ->
    g_servers (globals p') = g_servers (globals p)
    /\ g_nextServerId (globals p') = g_nextServerId (globals p).
Proof.
  induction l as [|[c|] l IH]; intros p p'; cbn [destroyed_steps].
  - intros [= <-]. auto.
  - destruct (forward_call c p) as [[] p1| | |] eqn:Hc; cbn [and_then];
      try discriminate.
    intros H. apply IH in H as [H1 H2].
    apply forward_call_frame in Hc as [H3 H4]. split; congruence.
  - discriminate.
Qed.

(** An action that comes back leaves the listeners and the counter as the
    step of the plain model does. *)
Lemma act_servers (a : Action) (p p' : Process) :
  act a p = Done tt p' ->
  g_servers (globals p') = g_servers (step (plain a) (globals p))
  /\ g_nextServerId (globals p')
     = g_nextServerId (step (plain a) (globals p)).
Proof.
  destruct a as [info wsa_ok os|info wakes|serverId data|eventType ip port];
    cbn [act plain step].
  - unfold CreateServer_call. cbn [and_then]. intros [= <-]. auto.
  - unfold StopServer_call.
    destruct info as [|[| |b|serverId|u|f] rest]; cbn [and_then];
      try (intros [= <-]; auto; fail).
    cbn [StopServer].
    destruct (g_servers (globals p) !! serverId) as [srv|] eqn:Hlive;
      [|cbn [and_then]; intros [= <-]; auto].
    destruct wakes; [|discriminate].
    destruct (release_slot _ (eventReleased p)); [|discriminate].
    destruct (release_slot _ (rawReleased p)); [|discriminate].
    cbn [and_then]. intros [= <-]. auto.
  - rewrite connection_input_servers.
    destruct (connection_input_frame serverId data (globals p))
      as (_ & Hn & _); cbv zeta in Hn. rewrite Hn.
    unfold chunk_arrives.
    destruct (g_servers (globals p) !! serverId) as [srv|] eqn:Hlive.
    + intros H. apply forward_calls_frame in H. exact H.
    + unfold EmitRawData_call.
      destruct (post_raw (RawBuffer data) p) as [[] p1| | |] eqn:Hraw;
        cbn [and_then]; try discriminate.
      intros H. apply destroyed_steps_frame in H as [H1 H2].
      apply (forward_call_frame (CallEmitRawData data)) in Hraw as [H3 H4].
      split; congruence.
  - unfold EmitConnectionEvent_call. intros H.
    apply post_event_frame in H as [H1 H2].
    unfold EmitConnectionEvent.
    destruct (post_frame (g_eventCallback (globals p))
                (ConnectionEvent eventType ip port) (globals p)) as [H3 H4].
    split; congruence.
Qed.

Lemma act_ids_below (a : Action) (n : Z) (p p' : Process) :
  ids_below n (globals p) ->
  n + creations [plain a] <= max_creations ->
  act a p = Done tt p' ->
  ids_below (n + creations [plain a]) (globals p')
  /\ forall id,
       g_servers (globals p) !! id = None -> id < g_nextServerId (globals p) ->
       g_servers (globals p') !! id = None
       /\ id < g_nextServerId (globals p').
Proof.
  intros Hinv Hbound Hact.
  destruct (step_ids_below (plain a) n (globals p) Hinv Hbound)
    as [Hinv' Hdead].
  destruct (act_servers a p p' Hact) as [Hs Hn].
  destruct Hinv' as [Hnext Hids].
  split; [split|].
  - now rewrite Hn.
  - intros id. rewrite Hs, Hn. apply Hids.
  - intros id H1 H2. rewrite Hs, Hn. auto.
Qed.

Lemma acts_ids_below (l : list Action) :
  forall n p p',
    ids_below n (globals p) ->
    n + creations (List.map plain l) <= max_creations ->
    acts l p = Done tt p' ->
    ids_below (n + creations (List.map plain l)) (globals p')
    /\ forall id,
         g_servers (globals p) !! id = None ->
         id < g_nextServerId (globals p) ->
         g_servers (globals p') !! id = None.
Proof.
  induction l as [|a l IH]; intros n p p' Hinv Hbound;
    cbn [acts List.map] in *.
  - intros [= <-]. cbn [creations]. rewrite Z.add_0_r. auto.
  - rewrite creations_cons in *.
    pose proof (creations_nonneg (List.map plain l)) as Hl.
    destruct (act a p) as [[] p1| | |] eqn:Hact; cbn [and_then];
      try discriminate.
    intros Hrest.
    destruct (act_ids_below a n p p1 Hinv ltac:(lia) Hact) as [Hinv1 Hdead1].
    destruct (IH _ p1 p' Hinv1 ltac:(lia) Hrest) as [Hinv2 Hdead2].
    rewrite Z.add_assoc. split; [exact Hinv2|].
    intros id H1 H2. destruct (Hdead1 id H1 H2). auto.
Qed.

Lemma release_slot_usable (handle : option ThreadSafeFunction) (flag : bool) :
  slot_usable handle flag = true ->
  release_slot handle flag
  = Some (match handle with Some _ => true | None => flag end).
Proof.
  destruct handle; cbn; [|reflexivity].
  intros H. apply negb_true_iff in H. now rewrite H.
Qed.


(** C8.  What [StopServer] does for a live id.  With two listeners created
    and the second one stopped, [StopServer(1)] finds id 1 in [g_servers]
    and does not return [true]: the process aborts in [Release()] on the
    event handle, which the first stop already released and which is still
    in the global slot.  On a platform where closing the listening socket
    does not wake the blocked [accept], the call for a live id does not
    return at all.  What holds: for an id that is not in [g_servers] the
    call returns [false] and changes nothing; for a live id, with an accept
    thread that ends and handles that were not released before, it returns
    [true]; whenever the call returns, it returns [true] exactly for a live
    id, and the id is not in [g_servers] afterwards while the others are
    untouched; and in a run from the start of the process, with no more
    creations than [int] can count, after a call that returned [true] for
    an id every later call that returns for this id returns [false]. *)
Theorem C8_stopServer_aborts_on_second_listener :
  (exists p,
      acts [ActCreate [JsNumber 50500; JsFunction 1] true (Listening 3);
            ActCreate [JsNumber 50501; JsFunction 2] true (Listening 4);
            ActStop [JsNumber 2] true] process_start = Done tt p
      /\ is_Some (g_servers (globals p) !! 1)
      /\ StopServer_call [JsNumber 1] true p = Aborts)
  /\ (forall id rest p,
         is_Some (g_servers (globals p) !! id) ->
         StopServer_call (JsNumber id :: rest) false p = Blocks)
  /\ (forall id rest wakes p,
         g_servers (globals p) !! id = None ->
         StopServer_call (JsNumber id :: rest) wakes p
         = Done (Returned (JsBoolean false)) p)
  /\ (forall id rest p,
         is_Some (g_servers (globals p) !! id) ->
         slot_usable (g_eventCallback (globals p)) (eventReleased p) = true ->
         slot_usable (g_rawCallback (globals p)) (rawReleased p) = true ->
         exists p',
           StopServer_call (JsNumber id :: rest) true p
           = Done (Returned (JsBoolean true)) p')
  /\ (forall id rest wakes p r p',
         StopServer_call (JsNumber id :: rest) wakes p = Done r p' ->
         (r = Returned (JsBoolean true)
          <-> is_Some (g_servers (globals p) !! id))
         /\ (r = Returned (JsBoolean false)
             <-> g_servers (globals p) !! id = None)
         /\ g_servers (globals p') !! id = None
         /\ (forall id', id' <> id ->
               g_servers (globals p') !! id' = g_servers (globals p) !! id'))
  /\ (forall before after id rest rest' wakes wakes' p p1 p2,
         creations (List.map plain (before ++ after)) <= max_creations ->
         acts before process_start = Done tt p ->
         StopServer_call (JsNumber id :: rest) wakes p
         = Done (Returned (JsBoolean true)) p1 ->
         acts after p1 = Done tt p2 ->
         StopServer_call (JsNumber id :: rest') wakes' p2
         = Done (Returned (JsBoolean false)) p2).
Proof.
  assert (Hret : forall id rest wakes p r p',
    StopServer_call (JsNumber id :: rest) wakes p = Done r p' ->
    (r = Returned (JsBoolean true) <-> is_Some (g_servers (globals p) !! id))
    /\ (r = Returned (JsBoolean false) <-> g_servers (globals p) !! id = None)
    /\ g_servers (globals p') !! id = None
    /\ (forall id', id' <> id ->
          g_servers (globals p') !! id' = g_servers (globals p) !! id')
    /\ g_nextServerId (globals p') = g_nextServerId (globals p)).
  { intros id rest wakes p r p'. unfold StopServer_call. cbn [StopServer].
    destruct (g_servers (globals p) !! id) as [srv|] eqn:Hlive.
    - destruct wakes; [|discriminate].
      destruct (release_slot _ (eventReleased p)); [|discriminate].
      destruct (release_slot _ (rawReleased p)); [|discriminate].
      cbn [fst snd]. intros [= <- <-]. cbn [globals g_servers g_nextServerId].
      split_and!.
      + split; eauto.
      + split; discriminate.
      + apply lookup_delete_eq.
      + intros id' Hne. now rewrite lookup_delete_ne.
      + reflexivity.
    - cbn [fst]. intros [= <- <-]. split_and!; auto.
      + split; [discriminate | intros [? [=]]].
      + split; reflexivity. }
  split_and!.
  - eexists. split_and!; [vm_compute; reflexivity|eexists; reflexivity|
                          reflexivity].
  - intros id rest p [srv Hlive]. unfold StopServer_call. now rewrite Hlive.
  - intros id rest wakes p Hdead. unfold StopServer_call. cbn [StopServer].
    now rewrite Hdead.
  - intros id rest p [srv Hlive] Hev Hraw. unfold StopServer_call.
    cbn [StopServer]. rewrite Hlive.
    rewrite (release_slot_usable _ _ Hev), (release_slot_usable _ _ Hraw).
    eauto.
  - intros id rest wakes p r p' H.
    destruct (Hret id rest wakes p r p' H) as (H1 & H2 & H3 & H4 & _). auto.
  - intros before after id rest rest' wakes wakes' p p1 p2
           Hbound Hbefore Hstop Hafter.
    rewrite map_app, creations_app in Hbound.
    pose proof (creations_nonneg (List.map plain before)) as Hb.
    pose proof (creations_nonneg (List.map plain after)) as Ha.
    destruct (acts_ids_below before 0 process_start p initial_ids_below
                ltac:(lia) Hbefore) as [[Hnext Hids] _].
    destruct (Hret _ _ _ _ _ _ Hstop) as (Htrue & _ & Hgone & Hothers & Hn1).
    pose proof (Hids id (proj1 Htrue eq_refl)) as Hid.
    assert (Hinv1 : ids_below (0 + creations (List.map plain before))
                      (globals p1)).
    { split; [rewrite Hn1; lia|]. intros id' Hsome. rewrite Hn1.
      destruct (decide (id' = id)) as [->|Hne].
      - rewrite Hgone in Hsome. now destruct Hsome.
      - rewrite (Hothers id' Hne) in Hsome. now apply Hids. }
    destruct (acts_ids_below after _ p1 p2 Hinv1 ltac:(lia) Hafter)
      as [_ Hkeep].
    specialize (Hkeep id Hgone ltac:(rewrite Hn1; lia)).
    unfold StopServer_call. cbn [StopServer]. now rewrite Hkeep.
Qed.

Lemma C8_witness :
  let g := snd (CreateServer [JsNumber 50500; JsFunction 1] true (Listening 3)
                  initial) in
  StopServer_call [JsNumber 1] false (mkProcess g false false) = Blocks
  /\ StopServer_call [JsNumber 9] true (mkProcess g false false)
     = Done (Returned (JsBoolean false)) (mkProcess g false false)
  /\ (exists p',
         StopServer_call [JsNumber 1] true (mkProcess g false false)
         = Done (Returned (JsBoolean true)) p').
Proof.
  intros g. split_and!.
  - exact (proj1 (proj2 C8_stopServer_aborts_on_second_listener)
             1 [] (mkProcess g false false)
             (ex_intro _ (mkServer (Some 3) true ∅) eq_refl)).
  - exact (proj1 (proj2 (proj2 C8_stopServer_aborts_on_second_listener))
             9 [] true (mkProcess g false false) eq_refl).
  - exact (proj1 (proj2 (proj2 (proj2 C8_stopServer_aborts_on_second_listener)))
             1 [] (mkProcess g false false)
             (ex_intro _ (mkServer (Some 3) true ∅) eq_refl)
             eq_refl eq_refl).
Defined.



